(** * Ecosystem simulation engine (backend/src/simulation/simulator.js)

    A shallow embedding of the [EcosystemSimulator] class: the modified
    Lotka-Volterra derivative, the fixed-step RK4 integrator, the
    run-to-completion driver with its equilibrium and extinction monitors, and
    the two static analysers.

    JavaScript numbers are IEEE 754 binary64 values; they are modelled by the
    primitive binary64 floats, so [+], [-], [*], [/] and the comparisons are
    the very operations the engine executes, NaN, signed zeros and infinities
    included.  [Math.sqrt] is the correctly rounded IEEE square root.
    [Math.sin] and [Math.pow], which ECMAScript leaves
    implementation-approximated, are parameters of the development. *)

From Stdlib Require Import ZArith List Bool Lia Floats Sorted.
From Stdlib Require Uint63.
Import ListNotations.

Set Warnings "-inexact-float,-abstract-large-number".

Open Scope float_scope.

(** ** JavaScript number built-ins *)

Module Js.

(** A JS number holding a non-negative integer counter ([i], [points],
    [array.length]). *)
Definition of_nat (n : nat) : float := of_uint63 (Uint63.of_Z (Z.of_nat n)).

(** [Math.PI] *)
Definition Math_PI : float := 3.141592653589793.

(** [Math.max(a, b)]: NaN if either argument is NaN, and [+0] above [-0]. *)
Definition Math_max (a b : float) : float :=
  if is_nan a || is_nan b then nan
  else if a <? b then b
  else if b <? a then a
  else if get_sign a then b else a.

(** [Math.min(a, b)]: NaN if either argument is NaN, and [-0] below [+0]. *)
Definition Math_min (a b : float) : float :=
  if is_nan a || is_nan b then nan
  else if a <? b then a
  else if b <? a then b
  else if get_sign a then a else b.

(** [Math.round(x)]: the integer nearest to [x], ties towards +Infinity,
    that is [floor(x + 1/2)] computed exactly; NaN, zeros, infinities and
    integral values are returned unchanged, and results in [[-0.5, 0)]
    are [-0]. *)
Definition Math_round (x : float) : float :=
  match Prim2SF x with
  | S754_finite s m e =>
      if (0 <=? e)%Z then x
      else
        let q := (2 ^ (- e))%Z in
        let n := ((2 * (if s then Z.neg m else Z.pos m) + q) / (2 * q))%Z in
        if (n =? 0)%Z then (if s then neg_zero else zero)
        else if (n <? 0)%Z then - of_uint63 (Uint63.of_Z (- n))
        else of_uint63 (Uint63.of_Z n)
  | _ => x
  end.

(** JS [a >= b] and [a > b] *)
Definition geb (a b : float) : bool := b <=? a.
Definition gtb (a b : float) : bool := b <? a.

End Js.
Import Js.

(** ** Parameters, records and results *)

Record PreyParameters := {
  prey_initialPopulation : float;
  birthRate : float;
  carryingCapacity : float
}.

Record PredatorParameters := {
  predator_initialPopulation : float;
  huntingEfficiency : float;
  deathRate : float
}.

Record EnvironmentParameters := {
  resourceAvailability : float;
  seasonalVariation : bool;
  seasonalAmplitude : float
}.

Record SimulationParameters := {
  prey : PreyParameters;
  predator : PredatorParameters;
  environment : EnvironmentParameters
}.

Record TimeStep := {
  time : float;
  preyPopulation : float;
  predatorPopulation : float;
  resourceLevel : float
}.

Record EquilibriumPoint := {
  eq_prey : float;
  eq_predator : float;
  timeToReach : float
}.

(** The fields of an [EcosystemSimulator] instance.  [dt],
    [equilibriumBufferSize] and [equilibriumTolerance] are written once by the
    constructor and never reassigned: they are the constants below.
    [equilibriumBuffer] is never read. *)
Record Simulator := {
  params : SimulationParameters;
  history : list TimeStep;
  currentTime : float;
  maxTime : float;
  preyPop : float;
  predatorPop : float;
  equilibriumReached : bool;
  equilibriumPoint : option EquilibriumPoint;
  extinctionOccurred : bool
}.

Definition dt : float := 0.01.
Definition equilibriumBufferSize : nat := 50.
Definition equilibriumTolerance : float := 0.01.

Definition constructor (parameters : SimulationParameters) : Simulator := {|
  params := parameters;
  history := [];
  currentTime := 0;
  maxTime := 100;
  preyPop := prey_initialPopulation (prey parameters);
  predatorPop := predator_initialPopulation (predator parameters);
  equilibriumReached := false;
  equilibriumPoint := None;
  extinctionOccurred := false
|}.

Definition set_history (this : Simulator) (h : list TimeStep) : Simulator := {|
  params := params this; history := h; currentTime := currentTime this;
  maxTime := maxTime this; preyPop := preyPop this;
  predatorPop := predatorPop this;
  equilibriumReached := equilibriumReached this;
  equilibriumPoint := equilibriumPoint this;
  extinctionOccurred := extinctionOccurred this |}.

Definition set_currentTime (this : Simulator) (t : float) : Simulator := {|
  params := params this; history := history this; currentTime := t;
  maxTime := maxTime this; preyPop := preyPop this;
  predatorPop := predatorPop this;
  equilibriumReached := equilibriumReached this;
  equilibriumPoint := equilibriumPoint this;
  extinctionOccurred := extinctionOccurred this |}.

Definition set_maxTime (this : Simulator) (t : float) : Simulator := {|
  params := params this; history := history this;
  currentTime := currentTime this; maxTime := t; preyPop := preyPop this;
  predatorPop := predatorPop this;
  equilibriumReached := equilibriumReached this;
  equilibriumPoint := equilibriumPoint this;
  extinctionOccurred := extinctionOccurred this |}.

Definition set_pops (this : Simulator) (p q : float) : Simulator := {|
  params := params this; history := history this;
  currentTime := currentTime this; maxTime := maxTime this; preyPop := p;
  predatorPop := q;
  equilibriumReached := equilibriumReached this;
  equilibriumPoint := equilibriumPoint this;
  extinctionOccurred := extinctionOccurred this |}.

Definition set_equilibrium (this : Simulator) (pt : EquilibriumPoint)
  : Simulator := {|
  params := params this; history := history this;
  currentTime := currentTime this; maxTime := maxTime this;
  preyPop := preyPop this; predatorPop := predatorPop this;
  equilibriumReached := true;
  equilibriumPoint := Some pt;
  extinctionOccurred := extinctionOccurred this |}.

Definition set_extinctionOccurred (this : Simulator) : Simulator := {|
  params := params this; history := history this;
  currentTime := currentTime this; maxTime := maxTime this;
  preyPop := preyPop this; predatorPop := predatorPop this;
  equilibriumReached := equilibriumReached this;
  equilibriumPoint := equilibriumPoint this;
  extinctionOccurred := true |}.

(** [array.push(x)] *)
Definition push {A : Type} (a : list A) (x : A) : list A := a ++ [x].

(** [array.slice(-n)]: the last [n] elements (all of them when there are
    fewer). *)
Definition slice_last {A : Type} (n : nat) (a : list A) : list A :=
  skipn (length a - n) a.

(** [array.reduce(f, init)] *)
Definition reduce {A B : Type} (f : B -> A -> B) (init : B) (a : list A) : B :=
  fold_left f a init.

Record Derivatives := { dPreyDt : float; dPredatorDt : float }.
Record Populations := { pop_prey : float; pop_predator : float }.

Section Engine.

(** [Math.sin] and [Math.pow] of the host. *)
Variable Math_sin : float -> float.
Variable Math_pow : float -> float -> float.

(** *** Resource function *)

Definition calculateResourceLevel (this : Simulator) (time : float) : float :=
  let base := resourceAvailability (environment (params this)) in
  if negb (seasonalVariation (environment (params this))) then base
  else
    let amplitude := seasonalAmplitude (environment (params this)) in
    let seasonalFactor := Math_sin (2 * Math_PI * time / 12) in
    Math_max 0 (Math_min 1 (base + amplitude * seasonalFactor)).

(** *** Derivative function *)

Definition calculateDerivatives (this : Simulator)
    (prey_ predator_ resourceLevel_ : float) : Derivatives :=
  let p := params this in
  let effectiveBirthRate := birthRate (prey p) * resourceLevel_ in
  let preyGrowth := effectiveBirthRate * prey_ in
  let predation := huntingEfficiency (predator p) * prey_ * predator_ in
  let preyCompetition :=
    (birthRate (prey p) * prey_ * prey_) / carryingCapacity (prey p) in
  let dPreyDt_ := preyGrowth - predation - preyCompetition in
  let predatorGrowth :=
    huntingEfficiency (predator p) * 0.5 * prey_ * predator_ in
  let predatorDeath := deathRate (predator p) * predator_ in
  let starvationFactor := if prey_ <? 10 then 2.0 else 1.0 in
  let dPredatorDt_ := predatorGrowth - predatorDeath * starvationFactor in
  {| dPreyDt := dPreyDt_; dPredatorDt := dPredatorDt_ |}.

(** *** Integrator *)

Definition rungeKutta4Step (this : Simulator) (prey_ predator_ time : float)
  : Populations :=
  let resourceLevel_ := calculateResourceLevel this time in
  let k1 := calculateDerivatives this prey_ predator_ resourceLevel_ in
  let k2Prey := prey_ + 0.5 * dt * dPreyDt k1 in
  let k2Predator := predator_ + 0.5 * dt * dPredatorDt k1 in
  let k2 := calculateDerivatives this k2Prey k2Predator resourceLevel_ in
  let k3Prey := prey_ + 0.5 * dt * dPreyDt k2 in
  let k3Predator := predator_ + 0.5 * dt * dPredatorDt k2 in
  let k3 := calculateDerivatives this k3Prey k3Predator resourceLevel_ in
  let k4Prey := prey_ + dt * dPreyDt k3 in
  let k4Predator := predator_ + dt * dPredatorDt k3 in
  let k4 := calculateDerivatives this k4Prey k4Predator resourceLevel_ in
  let newPrey := Math_max 0 (prey_ + (dt / 6) *
    (dPreyDt k1 + 2 * dPreyDt k2 + 2 * dPreyDt k3 + dPreyDt k4)) in
  let newPredator := Math_max 0 (predator_ + (dt / 6) *
    (dPredatorDt k1 + 2 * dPredatorDt k2 + 2 * dPredatorDt k3
     + dPredatorDt k4)) in
  {| pop_prey := newPrey; pop_predator := newPredator |}.

(** *** Equilibrium detector *)

Definition checkEquilibrium (this : Simulator) : bool * Simulator :=
  if (length (history this) <? equilibriumBufferSize)%nat then (false, this)
  else
    let recent := slice_last equilibriumBufferSize (history this) in
    let len := of_nat (length recent) in
    let avgPrey :=
      reduce (fun sum h => sum + preyPopulation h) 0 recent / len in
    let avgPredator :=
      reduce (fun sum h => sum + predatorPopulation h) 0 recent / len in
    let preyVariance :=
      reduce (fun sum h => sum + Math_pow (preyPopulation h - avgPrey) 2)
             0 recent / len in
    let predatorVariance :=
      reduce (fun sum h =>
                sum + Math_pow (predatorPopulation h - avgPredator) 2)
             0 recent / len in
    let preyStable :=
      PrimFloat.sqrt preyVariance / avgPrey <? equilibriumTolerance in
    let predatorStable :=
      PrimFloat.sqrt predatorVariance / avgPredator <? equilibriumTolerance in
    if preyStable && predatorStable then
      (true, set_equilibrium this {| eq_prey := avgPrey;
                                     eq_predator := avgPredator;
                                     timeToReach := currentTime this |})
    else (false, this).

(** *** Extinction detector *)

Definition checkExtinction (this : Simulator) : bool * Simulator :=
  if (preyPop this <? 1) || (predatorPop this <? 1) then
    (true, set_extinctionOccurred this)
  else (false, this).

(** *** Run-to-completion driver *)

Definition recordInterval : float := 0.1.

(** The object literal pushed onto [history], at the cadence and after the
    loop. *)
Definition record (this : Simulator) : TimeStep := {|
  time := Math_round (currentTime this * 100) / 100;
  preyPopulation := Math_round (preyPop this * 10) / 10;
  predatorPopulation := Math_round (predatorPop this * 10) / 10;
  resourceLevel := calculateResourceLevel this (currentTime this)
|}.

(** How one execution of the [while] body ends: at its last statement, or
    at the [break]. *)
Inductive Outcome :=
| Continue (this : Simulator) (lastRecord : float)
| Break (this : Simulator).

Definition outcome_state (o : Outcome) : Simulator :=
  match o with Continue s _ => s | Break s => s end.

(** "Store history at intervals" *)
Definition store_history (this : Simulator) (lastRecord : float)
  : Simulator * float :=
  if geb (currentTime this - lastRecord) recordInterval then
    (set_history this (push (history this) (record this)), currentTime this)
  else (this, lastRecord).

(** "Perform integration step" *)
Definition integrate (this : Simulator) : Simulator :=
  let newPops :=
    rungeKutta4Step this (preyPop this) (predatorPop this) (currentTime this)
  in set_pops this (pop_prey newPops) (pop_predator newPops).

(** "Check for equilibrium" *)
Definition equilibrium_phase (this : Simulator) : Simulator :=
  if negb (equilibriumReached this) then
    let '(found, this1) := checkEquilibrium this in
    if found then
      let extraTime := Math_min 10 (maxTime this1 - currentTime this1) in
      set_maxTime this1 (currentTime this1 + extraTime)
    else this1
  else this.

(** The body of the [while] loop of [simulate]. *)
Definition loop_body (this : Simulator) (lastRecord : float) : Outcome :=
  let '(this1, lastRecord1) := store_history this lastRecord in
  let this2 := integrate this1 in
  let '(extinct, this3) := checkExtinction this2 in
  if extinct then Break this3
  else
    let this4 := equilibrium_phase this3 in
    Continue (set_currentTime this4 (currentTime this4 + dt)) lastRecord1.

Definition loop_guard (this : Simulator) : bool :=
  currentTime this <? maxTime this.

(** [while (this.currentTime < this.maxTime) { ... }], with fuel; [None]
    when the fuel runs out before the loop exits. *)
Fixpoint while_loop (fuel : nat) (this : Simulator) (lastRecord : float)
  : option Simulator :=
  match fuel with
  | O => None
  | S fuel' =>
      if loop_guard this then
        match loop_body this lastRecord with
        | Break this' => Some this'
        | Continue this' lastRecord' => while_loop fuel' this' lastRecord'
        end
      else Some this
  end.

Record Summary := {
  duration : float;
  maxPrey : float;
  maxPredator : float;
  minPrey : float;
  minPredator : float;
  finalPrey : float;
  finalPredator : float;
  averageResourceLevel : float
}.

Record SimulationResults := {
  timeSteps : list TimeStep;
  res_equilibriumReached : bool;
  res_equilibriumPoint : option EquilibriumPoint;
  res_extinctionOccurred : bool;
  summary : Summary
}.

(** [Math.max(...xs)] and [Math.min(...xs)] *)
Definition Math_max_all (xs : list float) : float :=
  fold_left Math_max xs neg_infinity.
Definition Math_min_all (xs : list float) : float :=
  fold_left Math_min xs infinity.

Definition getResults (this : Simulator) : SimulationResults := {|
  timeSteps := history this;
  res_equilibriumReached := equilibriumReached this;
  res_equilibriumPoint := equilibriumPoint this;
  res_extinctionOccurred := extinctionOccurred this;
  summary := {|
    duration := currentTime this;
    maxPrey := Math_max_all (map preyPopulation (history this));
    maxPredator := Math_max_all (map predatorPopulation (history this));
    minPrey := Math_min_all (map preyPopulation (history this));
    minPredator := Math_min_all (map predatorPopulation (history this));
    finalPrey := preyPop this;
    finalPredator := predatorPop this;
    averageResourceLevel :=
      reduce (fun sum h => sum + resourceLevel h) 0 (history this)
      / of_nat (length (history this))
  |}
|}.

(** "Add final state" and return the results. *)
Definition finish (this : Simulator) : SimulationResults :=
  getResults (set_history this (push (history this) (record this))).

Definition simulate_fuel (fuel : nat) (this : Simulator)
  : option SimulationResults :=
  match while_loop fuel this 0 with
  | Some this' => Some (finish this')
  | None => None
  end.

(** The loop of a freshly constructed simulator exits within 10001 tests of
    its guard (lemma [simulate_returns] below), so this fuel is never
    exhausted. *)
Definition simulate_steps : nat := 10001.

Definition simulate (this : Simulator) : option SimulationResults :=
  simulate_fuel simulate_steps this.

(** The iterations the loop executes: the simulator at the start of each
    body execution, with how that execution ended. *)
Fixpoint iterations (fuel : nat) (this : Simulator) (lastRecord : float)
  : list (Simulator * Outcome) :=
  match fuel with
  | O => []
  | S fuel' =>
      if loop_guard this then
        let o := loop_body this lastRecord in
        (this, o) ::
        match o with
        | Break _ => []
        | Continue this' lastRecord' => iterations fuel' this' lastRecord'
        end
      else []
  end.

End Engine.

(** ** Static analysers *)

Record Prediction := {
  pred_prey : float;
  pred_predator : float;
  isStable : bool
}.

(** The engine's error taxonomy, and what a call completes with: a value, or
    a thrown error. *)
Inductive EngineError := InvalidParameters | DivisionByZero.

Inductive Completion (A : Type) :=
| Normal (value : A)
| Throw (error : EngineError).
Arguments Normal {A} value.
Arguments Throw {A} error.

(** Every statement of [predictEquilibrium] is number arithmetic, which
    completes normally in JavaScript whatever the operands. *)
Definition predictEquilibrium (parameters : SimulationParameters)
  : Completion Prediction :=
  let p := parameters in
  let preyEquilibrium :=
    deathRate (predator p) / (huntingEfficiency (predator p) * 0.5) in
  let predatorEquilibrium :=
    (birthRate (prey p) * resourceAvailability (environment p))
    / huntingEfficiency (predator p) in
  let adjustedPreyEq :=
    Math_min preyEquilibrium (carryingCapacity (prey p) * 0.8) in
  Normal {| pred_prey := adjustedPreyEq;
            pred_predator := predatorEquilibrium;
            isStable := gtb adjustedPreyEq 0 && gtb predatorEquilibrium 0 |}.

Record PhasePoint := { x : float; y : float; dx : float; dy : float }.

(** [for (let i = 0; i < n; i++) body] over a state [S] *)
Definition for_range {S : Type} (n : nat) (body : nat -> S -> S) (s : S) : S :=
  fold_left (fun s i => body i s) (seq 0 n) s.

(** [{...parameters, prey: {...parameters.prey, initialPopulation: prey},
      predator: {...parameters.predator, initialPopulation: predator}}] *)
Definition with_initialPopulations (parameters : SimulationParameters)
    (prey_ predator_ : float) : SimulationParameters := {|
  prey := {| prey_initialPopulation := prey_;
             birthRate := birthRate (prey parameters);
             carryingCapacity := carryingCapacity (prey parameters) |};
  predator := {| predator_initialPopulation := predator_;
                 huntingEfficiency := huntingEfficiency (predator parameters);
                 deathRate := deathRate (predator parameters) |};
  environment := environment parameters
|}.

(** The body of the inner loop of [calculatePhaseSpace]. *)
Definition phase_point (parameters : SimulationParameters) (points : nat)
    (predatorRange prey_ : float) (j : nat) : PhasePoint :=
  let predator_ := (of_nat j / of_nat points) * predatorRange in
  let sim := constructor (with_initialPopulations parameters prey_ predator_) in
  let derivatives :=
    calculateDerivatives sim prey_ predator_
      (resourceAvailability (environment parameters)) in
  {| x := prey_; y := predator_;
     dx := dPreyDt derivatives; dy := dPredatorDt derivatives |}.

(** [points] is the resolution, a non-negative integer. *)
Definition calculatePhaseSpace (parameters : SimulationParameters)
    (points : nat) : list PhasePoint :=
  let preyRange := carryingCapacity (prey parameters) in
  let predatorRange := predator_initialPopulation (predator parameters) * 10 in
  for_range points (fun i trajectory =>
    let prey_ := (of_nat i / of_nat points) * preyRange in
    for_range points (fun j trajectory =>
      push trajectory (phase_point parameters points predatorRange prey_ j))
      trajectory) [].

(** ** Predicates and example inputs *)

(** "All numeric fields >= 0" *)
Definition valid_parameters (p : SimulationParameters) : bool :=
  (0 <=? prey_initialPopulation (prey p)) && (0 <=? birthRate (prey p))
  && (0 <=? carryingCapacity (prey p))
  && (0 <=? predator_initialPopulation (predator p))
  && (0 <=? huntingEfficiency (predator p)) && (0 <=? deathRate (predator p))
  && (0 <=? resourceAvailability (environment p))
  && (0 <=? seasonalAmplitude (environment p)).

(** The equations of the Derivative Function as the specification writes
    them, products taken from left to right and [P²] read as [·P·P]. *)
Definition derivative_equations (p : SimulationParameters) (P Q r : float)
  : float * float :=
  let s := if P <? 10 then 2.0 else 1.0 in
  (birthRate (prey p) * r * P - huntingEfficiency (predator p) * P * Q
   - birthRate (prey p) * P * P / carryingCapacity (prey p),
   0.5 * huntingEfficiency (predator p) * P * Q
   - deathRate (predator p) * Q * s).

(** The sampled coordinates of a phase-space grid. *)
Definition coordinates (grid : list PhasePoint) : list (float * float) :=
  map (fun e => (x e, y e)) grid.

(** The presets of routes/simulation.js. *)
Definition balanced : SimulationParameters := {|
  prey := {| prey_initialPopulation := 1000; birthRate := 1.0;
             carryingCapacity := 5000 |};
  predator := {| predator_initialPopulation := 100; huntingEfficiency := 0.01;
                 deathRate := 0.5 |};
  environment := {| resourceAvailability := 0.7; seasonalVariation := false;
                    seasonalAmplitude := 0.2 |}
|}.

Definition predatorDominant : SimulationParameters := {|
  prey := {| prey_initialPopulation := 500; birthRate := 0.8;
             carryingCapacity := 3000 |};
  predator := {| predator_initialPopulation := 200; huntingEfficiency := 0.02;
                 deathRate := 0.3 |};
  environment := {| resourceAvailability := 0.5; seasonalVariation := false;
                    seasonalAmplitude := 0.2 |}
|}.

Definition boomAndBust : SimulationParameters := {|
  prey := {| prey_initialPopulation := 2000; birthRate := 1.5;
             carryingCapacity := 8000 |};
  predator := {| predator_initialPopulation := 50; huntingEfficiency := 0.015;
                 deathRate := 0.6 |};
  environment := {| resourceAvailability := 0.6; seasonalVariation := true;
                    seasonalAmplitude := 0.4 |}
|}.

(** [balanced] with a predator that never hunts. *)
Definition noHunting : SimulationParameters := {|
  prey := prey balanced;
  predator := {| predator_initialPopulation := 100; huntingEfficiency := 0;
                 deathRate := 0.5 |};
  environment := environment balanced
|}.

(** [balanced] with five times the resources, no seasons. *)
Definition abundant : SimulationParameters := {|
  prey := prey balanced;
  predator := predator balanced;
  environment := {| resourceAvailability := 5; seasonalVariation := false;
                    seasonalAmplitude := 0.2 |}
|}.

(** [balanced] with no carrying capacity. *)
Definition noCapacity : SimulationParameters := {|
  prey := {| prey_initialPopulation := 1000; birthRate := 1.0;
             carryingCapacity := 0 |};
  predator := predator balanced;
  environment := environment balanced
|}.

(** A system that settles: coexistence point (50, 50), started nearby. *)
Definition steady : SimulationParameters := {|
  prey := {| prey_initialPopulation := 60; birthRate := 1.0;
             carryingCapacity := 100 |};
  predator := {| predator_initialPopulation := 40; huntingEfficiency := 0.01;
                 deathRate := 0.25 |};
  environment := {| resourceAvailability := 1; seasonalVariation := false;
                    seasonalAmplitude := 0.2 |}
|}.

(** A system that keeps cycling around (50, 50): with so large a carrying
    capacity the oscillation is hardly damped. *)
Definition cycling : SimulationParameters := {|
  prey := {| prey_initialPopulation := 60; birthRate := 1.0;
             carryingCapacity := 1000000 |};
  predator := {| predator_initialPopulation := 50; huntingEfficiency := 0.02;
                 deathRate := 0.5 |};
  environment := {| resourceAvailability := 1; seasonalVariation := false;
                    seasonalAmplitude := 0.2 |}
|}.

(** The seasonal preset with an infinite amplitude. *)
Definition infiniteAmplitude : SimulationParameters := {|
  prey := prey boomAndBust;
  predator := predator boomAndBust;
  environment := {| resourceAvailability := 0.6; seasonalVariation := true;
                    seasonalAmplitude := infinity |}
|}.

(** Stand-ins for the host's [Math.sin] and [Math.pow], used to run the
    examples only: the degree-7 Taylor polynomial of the sine, and squaring
    for the exponent 2 the engine passes. *)
Definition sin_taylor (a : float) : float :=
  a - a * a * a / 6 + a * a * a * a * a / 120
  - a * a * a * a * a * a * a / 5040.

Definition pow_square (a b : float) : float := a * a.

(** ** Predicates on binary64 values *)

(** The value is not below zero: a zero of either sign, a positive number,
    [+Infinity], or NaN. *)
Definition sf_not_negative (s : spec_float) : bool :=
  match s with
  | S754_zero _ | S754_nan => true
  | S754_infinity sg | S754_finite sg _ _ => negb sg
  end.

Definition sf_is_nan (s : spec_float) : bool :=
  match s with S754_nan => true | _ => false end.

(** [x >= 0 || isNaN(x)] *)
Definition not_negative (x : float) : bool := (0 <=? x) || is_nan x.

(** [0 <= x && x <= 1] *)
Definition in_unit_interval (x : float) : bool := (0 <=? x) && (x <=? 1).

(** [!isFinite(x)] *)
Definition not_finite (x : float) : bool := is_nan x || is_infinity x.

(** [x <= range || isNaN(x)] *)
Definition below (x range : float) : bool := (x <=? range) || is_nan x.

(** The least integer not below a mantissa that carries round and sticky
    bits. *)
Definition record_above (mrs : shr_record) : Z :=
  (if shr_r mrs || shr_s mrs then shr_m mrs + 1 else shr_m mrs)%Z.

(** What rounding produces carries the sign it was given, or is NaN. *)
Definition sf_signed (sg : bool) (s : spec_float) : Prop :=
  match s with
  | S754_nan => True
  | S754_zero sg' | S754_infinity sg' | S754_finite sg' _ _ => sg' = sg
  end.

(** ** The clock and the trace of a run *)

(** [currentTime] after [k] executions of [this.currentTime += this.dt],
    starting from 0. *)
Fixpoint time_at (k : nat) : float :=
  match k with O => 0 | S k' => time_at k' + dt end.

(** The clock is no longer below the initial horizon after this many
    additions. *)
Definition last_tick : nat := 10000.

Definition final_time : float := Eval vm_compute in time_at last_tick.

(** The horizon the driver assigns on detecting equilibrium at time [T]
    under the horizon [H]:
    [this.currentTime + Math.min(10, this.maxTime - this.currentTime)]. *)
Definition shrunk_horizon (H T : float) : float := T + Math_min 10 (H - T).

(** [check] holds at [n] consecutive clock values from [t] on. *)
Fixpoint clock_all (check : float -> bool) (n : nat) (t : float) : bool :=
  match n with
  | O => true
  | S n' => check t && clock_all check n' (t + dt)
  end.

(** The simulator at the exit of the loop, given the one at its entry and the
    iterations executed. *)
Definition final_state (this : Simulator) (its : list (Simulator * Outcome))
  : Simulator :=
  last (map (fun it => outcome_state (snd it)) its) this.

(** The mean of a field over the trailing window of recorded samples. *)
Definition window_mean (field : TimeStep -> float) (h : list TimeStep)
  : float :=
  reduce (fun sum r => sum + field r) 0 (slice_last equilibriumBufferSize h)
  / of_nat (length (slice_last equilibriumBufferSize h)).

(** The point [checkEquilibrium] stores on detection. *)
Definition window_point (this : Simulator) : EquilibriumPoint := {|
  eq_prey := window_mean preyPopulation (history this);
  eq_predator := window_mean predatorPopulation (history this);
  timeToReach := currentTime this
|}.

(** An iteration in which [equilibriumReached] goes from false to true. *)
Definition latches (it : Simulator * Outcome) : bool :=
  negb (equilibriumReached (fst it))
  && equilibriumReached (outcome_state (snd it)).

(** The extinction test on the populations of a simulator. *)
Definition below_one (this : Simulator) : bool :=
  (preyPop this <? 1) || (predatorPop this <? 1).

Definition is_break (o : Outcome) : bool :=
  match o with Break _ => true | Continue _ _ => false end.

(** Both recorded populations are not below zero. *)
Definition record_not_negative (r : TimeStep) : bool :=
  not_negative (preyPopulation r) && not_negative (predatorPopulation r).

(** After [k] completed iterations the clock reads [time_at k], and the
    horizon is 100 until equilibrium is detected, and what the detection at
    some earlier tick shrank it to afterwards. *)
Definition horizon_inv (k : nat) (s : Simulator) : Prop :=
  (k <= last_tick)%nat /\ currentTime s = time_at k /\
  if equilibriumReached s
  then exists j, (j < k)%nat /\ maxTime s = shrunk_horizon 100 (time_at j)
  else maxTime s = 100.

(** The populations of a simulator and its records are not negative. *)
Definition populations_ok (s : Simulator) : Prop :=
  not_negative (preyPop s) = true /\ not_negative (predatorPop s) = true /\
  forallb record_not_negative (history s) = true.

(** The run returned, with results that pass [check]. *)
Definition returned_with (check : SimulationResults -> bool)
    (res : option SimulationResults) : bool :=
  match res with Some r => check r | None => false end.

(** The iterations of two example runs, with the example stand-ins for the
    host functions: one that ends in extinction, one that settles. *)
Definition extinct_run : list (Simulator * Outcome) :=
  iterations sin_taylor pow_square simulate_steps
             (constructor predatorDominant) 0.

Definition steady_run : list (Simulator * Outcome) :=
  iterations sin_taylor pow_square simulate_steps (constructor steady) 0.

(** The [i]-th iteration of a trace. *)
Definition iteration_at (its : list (Simulator * Outcome)) (i : nat)
  : Simulator * Outcome :=
  nth i its (constructor balanced, Break (constructor balanced)).

(** ** The trajectory of a run and the recording cadence *)

Section Trajectory.

Variable Math_sin : float -> float.

(** The populations after [k] integration steps from the initial ones, the
    [k]-th step taken at clock value [time_at k]. *)
Fixpoint trajectory (p : SimulationParameters) (k : nat) : Populations :=
  match k with
  | O => {| pop_prey := prey_initialPopulation (prey p);
            pop_predator := predator_initialPopulation (predator p) |}
  | S k' =>
      rungeKutta4Step Math_sin (constructor p)
        (pop_prey (trajectory p k')) (pop_predator (trajectory p k'))
        (time_at k')
  end.

End Trajectory.

(** The extinction test on a pair of populations. *)
Definition pops_below_one (q : Populations) : bool :=
  (pop_prey q <? 1) || (pop_predator q <? 1).

(** The cadence test [U - T >= recordInterval] fails for [U] at [T] and at
    the [n - 1] clock values after it. *)
Fixpoint gap_within (n : nat) (T U : float) : bool :=
  match n with
  | O => true
  | S n' => negb (geb (U - T) recordInterval) && gap_within n' T (U + dt)
  end.

(** A record taken at a clock value: its rounded time stamp and the
    resource level there. *)
Definition taken_at_tick (level : float -> float) (bound : nat)
    (r : TimeStep) : Prop :=
  exists j, (j <= bound)%nat /\
            time r = Math_round (time_at j * 100) / 100 /\
            resourceLevel r = level (time_at j).

(** What the driver keeps true at the start of iteration [k] of the run of
    [p], [l] being [lastRecord]: the clock and the trajectory; no extinction so
    far; records at least ten steps apart, each taken at a clock value; and
    the equilibrium point and the horizon moving together. *)
Definition run_inv (Math_sin : float -> float) (p : SimulationParameters)
    (k : nat) (s : Simulator) (l : float) : Prop :=
  (k <= last_tick)%nat /\ params s = p /\ currentTime s = time_at k /\
  preyPop s = pop_prey (trajectory Math_sin p k) /\
  predatorPop s = pop_predator (trajectory Math_sin p k) /\
  extinctionOccurred s = false /\
  (forall j, (1 <= j <= k)%nat ->
             pops_below_one (trajectory Math_sin p j) = false) /\
  (exists j, (j <= k)%nat /\ l = time_at j /\
             (10 * length (history s) <= j)%nat) /\
  Forall (taken_at_tick (calculateResourceLevel Math_sin (constructor p)) k)
         (history s) /\
  if equilibriumReached s
  then exists j pt, (500 <= j < k)%nat /\ equilibriumPoint s = Some pt /\
                    timeToReach pt = time_at j /\
                    maxTime s = Math_min 100 (time_at j + 10)
  else equilibriumPoint s = None /\ maxTime s = 100.

(** The simulator at the exit of the loop of the run of [p], after [k]
    completed iterations: left by the [break] of iteration [k], or by the
    guard. *)
Definition run_end (Math_sin : float -> float) (p : SimulationParameters)
    (k : nat) (s : Simulator) : Prop :=
  (k <= last_tick)%nat /\ params s = p /\ currentTime s = time_at k /\
  (10 * length (history s) <= k)%nat /\
  Forall (taken_at_tick (calculateResourceLevel Math_sin (constructor p)) k)
         (history s) /\
  (if equilibriumReached s
   then exists j pt, (500 <= j < k)%nat /\ equilibriumPoint s = Some pt /\
                     timeToReach pt = time_at j /\
                     maxTime s = Math_min 100 (time_at j + 10)
   else equilibriumPoint s = None /\ maxTime s = 100) /\
  if extinctionOccurred s
  then below_one s = true /\ loop_guard s = true /\
       preyPop s = pop_prey (trajectory Math_sin p (S k)) /\
       predatorPop s = pop_predator (trajectory Math_sin p (S k))
  else below_one s = false /\ loop_guard s = false /\ (1 <= k)%nat /\
       preyPop s = pop_prey (trajectory Math_sin p k) /\
       predatorPop s = pop_predator (trajectory Math_sin p k).

(** models/Scenario.js, [scenarioSchema.methods.isStable], on the stored
    results of a run. *)
Definition isStable_scenario (res : SimulationResults) : bool :=
  res_equilibriumReached res && negb (res_extinctionOccurred res).

(** ** The streaming host (routes/simulation.js, POST /stream) *)

Section Streaming.

Variable Math_sin : float -> float.

(** The events written to the response. *)
Inductive StreamEvent :=
| Complete (results : SimulationResults)
| Update (step : nat) (time prey_ predator_ resourceLevel_ : float).

(** The test at the head of the interval callback:
    [simulator.currentTime >= simulator.maxTime ||
     simulator.extinctionOccurred]. *)
Definition stream_finished (sim : Simulator) : bool :=
  geb (currentTime sim) (maxTime sim) || extinctionOccurred sim.

(** One round of the [for] loop of the callback: the integration step, the
    clock advanced, then the extinction test. *)
Definition micro_step (sim : Simulator) : bool * Simulator :=
  let sim1 := integrate Math_sin sim in
  let sim2 := set_currentTime sim1 (currentTime sim1 + dt) in
  checkExtinction sim2.

(** [for (let i = 0; i < n; i++) { ...; if (checkExtinction()) break; }] *)
Fixpoint advance_batch (n : nat) (sim : Simulator) : Simulator :=
  match n with
  | O => sim
  | S n' =>
      let '(extinct, sim') := micro_step sim in
      if extinct then sim' else advance_batch n' sim'
  end.

Definition batch_size : nat := 10.

(** One firing of the interval callback: the event it writes and, unless it
    cleared the interval, the simulator and step counter it leaves. *)
Definition stream_tick (sim : Simulator) (step : nat)
  : StreamEvent * option (Simulator * nat) :=
  if stream_finished sim then (Complete (getResults sim), None)
  else
    let sim' := advance_batch batch_size sim in
    (Update step (currentTime sim') (preyPop sim') (predatorPop sim')
            (calculateResourceLevel Math_sin sim' (currentTime sim')),
     Some (sim', S step)).

(** The events of the first [fuel] firings. *)
Fixpoint stream (fuel : nat) (sim : Simulator) (step : nat)
  : list StreamEvent :=
  match fuel with
  | O => []
  | S fuel' =>
      match stream_tick sim step with
      | (event, None) => [event]
      | (event, Some (sim', step')) => event :: stream fuel' sim' step'
      end
  end.

Definition is_update (e : StreamEvent) : bool :=
  match e with Update _ _ _ _ _ => true | Complete _ => false end.

(** The simulator of the streaming host after [k] rounds of the run of [p]:
    the clock and the trajectory of the run, nothing recorded or detected,
    and the extinction flag as given. *)
Definition stream_state (p : SimulationParameters) (k : nat) (extinct : bool)
    (s : Simulator) : Prop :=
  params s = p /\ currentTime s = time_at k /\
  preyPop s = pop_prey (trajectory Math_sin p k) /\
  predatorPop s = pop_predator (trajectory Math_sin p k) /\
  history s = [] /\ maxTime s = 100 /\ equilibriumReached s = false /\
  equilibriumPoint s = None /\ extinctionOccurred s = extinct.

(** The [update] event numbered [step], written with the simulator at point
    [k] of the trajectory of [p]. *)
Definition update_at (p : SimulationParameters) (step k : nat)
  : StreamEvent :=
  Update step (time_at k) (pop_prey (trajectory Math_sin p k))
         (pop_predator (trajectory Math_sin p k))
         (calculateResourceLevel Math_sin (constructor p) (time_at k)).

(** A [complete] event that carries no record, no equilibrium, and the
    summary of an empty history. *)
Definition complete_is_bare (e : StreamEvent) : Prop :=
  match e with
  | Update _ _ _ _ _ => True
  | Complete res =>
      timeSteps res = [] /\ res_equilibriumReached res = false /\
      res_equilibriumPoint res = None /\
      maxPrey (summary res) = neg_infinity /\
      maxPredator (summary res) = neg_infinity /\
      minPrey (summary res) = infinity /\
      minPredator (summary res) = infinity /\
      is_nan (averageResourceLevel (summary res)) = true
  end.

End Streaming.

(** No value of the list is NaN. *)
Definition no_nan (xs : list float) : bool :=
  forallb (fun v => negb (is_nan v)) xs.

(** Every value of the list lies between [lo] and [hi]. *)
Definition all_between (lo hi : float) (xs : list float) : bool :=
  forallb (fun v => (lo <=? v) && (v <=? hi)) xs.

(** The simulator [finish] hands to [getResults] at the end of the run of
    [predatorDominant]. *)
Definition extinct_end : Simulator :=
  let s := final_state (constructor predatorDominant) extinct_run in
  set_history s (push (history s) (record sin_taylor s)).

(** The time stamp of a record taken at clock value [T]. *)
Definition stamp_of (T : float) : float := Math_round (T * 100) / 100.

(** A record is stamped before another one. *)
Definition before (a b : TimeStep) : Prop := (time a <? time b) = true.

(** A record stamped at one of the first [bound] clock values. *)
Definition stamped_by (bound : nat) (r : TimeStep) : Prop :=
  exists i, (i <= bound)%nat /\ time r = stamp_of (time_at i).

(** At the start of iteration [k], [l] being [lastRecord]: the records were
    stamped no later than the last cadence record, in strictly increasing
    order. *)
Definition stamps_inv (k : nat) (s : Simulator) (l : float) : Prop :=
  exists j, (j <= k)%nat /\ l = time_at j /\
            Forall (stamped_by j) (history s) /\
            StronglySorted before (history s).

Definition stamps_end (s : Simulator) : Prop :=
  exists k, (k <= last_tick)%nat /\ currentTime s = time_at k /\
            Forall (stamped_by k) (history s) /\
            StronglySorted before (history s).

(** ** Facts about binary64 arithmetic

    Proved through the specification of the primitive operations over
    [spec_float]. *)

Lemma SFcompare_refl (s : spec_float) :
  SFcompare s s = if sf_is_nan s then None else Some Eq.
Proof.
  destruct s as [sg|sg| |sg m e]; simpl; try reflexivity.
  - destruct sg; reflexivity.
  - rewrite Z.compare_refl, Pos.compare_cont_refl. destruct sg; reflexivity.
Qed.

Lemma SFcompare_antisym (a b : spec_float) :
  SFcompare b a = option_map CompOpp (SFcompare a b).
Proof.
  destruct a as [sa|sa| |sa ma ea], b as [sb|sb| |sb mb eb]; simpl;
    try reflexivity; try (destruct sa; reflexivity);
    try (destruct sb; reflexivity);
    try (destruct sa, sb; reflexivity).
  f_equal. rewrite (Z.compare_antisym ea eb).
  replace (Pos.compare_cont Eq mb ma)
    with (CompOpp (Pos.compare_cont Eq ma mb))
    by (now rewrite Pos.compare_cont_antisym).
  destruct sa, sb; try reflexivity;
    destruct (ea ?= eb)%Z; simpl; try reflexivity.
Qed.

Lemma is_nan_spec (x : float) : is_nan x = sf_is_nan (Prim2SF x).
Proof.
  unfold is_nan. rewrite eqb_spec. unfold SFeqb.
  rewrite SFcompare_refl. now destruct (sf_is_nan (Prim2SF x)).
Qed.

Lemma not_negative_spec (x : float) :
  not_negative x = sf_not_negative (Prim2SF x).
Proof.
  unfold not_negative. rewrite is_nan_spec, leb_spec.
  change (Prim2SF 0) with (S754_zero false).
  destruct (Prim2SF x) as [sg|sg| |sg m e]; try reflexivity;
    destruct sg; reflexivity.
Qed.

Lemma ltb_leb (a b : float) : (a <? b) = true -> (a <=? b) = true.
Proof.
  rewrite ltb_spec, leb_spec. unfold SFltb, SFleb.
  now destruct (SFcompare (Prim2SF a) (Prim2SF b)) as [[]|].
Qed.

Lemma SFcompare_numbers (a b : spec_float) :
  sf_is_nan a = false -> sf_is_nan b = false -> SFcompare a b <> None.
Proof.
  destruct a as [sa|sa| |sa ma ea], b as [sb|sb| |sb mb eb]; simpl;
    discriminate.
Qed.

(** Among numbers, [!(a < b)] is [b <= a]. *)
Lemma not_ltb_leb (a b : float) :
  is_nan a = false -> is_nan b = false -> (a <? b) = false -> (b <=? a) = true.
Proof.
  rewrite !is_nan_spec, ltb_spec, leb_spec. unfold SFltb, SFleb.
  rewrite (SFcompare_antisym (Prim2SF a) (Prim2SF b)).
  intros Ha Hb. pose proof (SFcompare_numbers _ _ Ha Hb) as Hc.
  destruct (SFcompare (Prim2SF a) (Prim2SF b)) as [[]|]; simpl; congruence.
Qed.

Lemma mul_comm (a b : float) : a * b = b * a.
Proof.
  apply Prim2SF_inj. rewrite !mul_spec. unfold SF64mul.
  destruct (Prim2SF a) as [sa|sa| |sa ma ea], (Prim2SF b) as [sb|sb| |sb mb eb];
    simpl; try reflexivity; rewrite (xorb_comm sa sb); try reflexivity.
  now rewrite (Pos.mul_comm ma mb), (Z.add_comm ea eb).
Qed.

Lemma binary_round_aux_signed (sg : bool) (m e : Z) (l : location) :
  sf_signed sg (binary_round_aux prec emax sg m e l).
Proof.
  unfold binary_round_aux.
  destruct (shr_fexp prec emax m e l) as [mrs1 e1].
  destruct (shr_fexp prec emax _ e1 loc_Exact) as [mrs2 e2].
  destruct (shr_m mrs2); [reflexivity| |exact I].
  destruct (_ <=? _)%Z; reflexivity.
Qed.

Lemma binary_round_signed (sg : bool) (m : positive) (e : Z) :
  sf_signed sg (binary_round prec emax sg m e).
Proof.
  unfold binary_round.
  destruct (shl_align m e _) as [mz ez]. apply binary_round_aux_signed.
Qed.

Lemma sf_signed_not_negative (s : spec_float) :
  sf_signed false s -> sf_not_negative s = true.
Proof. destruct s; simpl; intros; subst; reflexivity. Qed.

Lemma mul_not_negative (a b : float) :
  not_negative a = true -> not_negative b = true ->
  not_negative (a * b) = true.
Proof.
  rewrite !not_negative_spec, mul_spec. unfold SF64mul.
  destruct (Prim2SF a) as [sa|sa| |sa ma ea], (Prim2SF b) as [sb|sb| |sb mb eb];
    simpl; try reflexivity; try discriminate;
    destruct sa; try discriminate; destruct sb; try discriminate;
    intros _ _; try reflexivity.
  apply sf_signed_not_negative, binary_round_aux_signed.
Qed.

(** Division by a value of positive sign keeps a value not negative. *)
Lemma div_not_negative (a b : float) :
  sf_signed false (Prim2SF b) ->
  not_negative a = true -> not_negative (a / b) = true.
Proof.
  rewrite !not_negative_spec, div_spec. unfold SF64div.
  destruct (Prim2SF a) as [sa|sa| |sa ma ea], (Prim2SF b) as [sb|sb| |sb mb eb];
    simpl; try reflexivity; try discriminate;
    intros ->; try reflexivity;
    destruct sa; try discriminate; intros _; try reflexivity.
  destruct (SFdiv_core_binary prec emax (Z.pos ma) ea (Z.pos mb) eb)
    as [[mz ez] lz].
  apply sf_signed_not_negative, binary_round_aux_signed.
Qed.

Lemma of_uint63_signed (i : PrimInt63.int) :
  sf_signed false (Prim2SF (of_uint63 i)).
Proof.
  rewrite of_uint63_spec. unfold binary_normalize.
  pose proof (Uint63.to_Z_bounded i) as Hi.
  destruct (Uint63Axioms.to_Z i) eqn:E; try reflexivity.
  - apply binary_round_signed.
  - exfalso. change (Uint63.to_Z i) with (Uint63Axioms.to_Z i) in Hi. lia.
Qed.

Lemma of_uint63_not_negative (i : PrimInt63.int) :
  not_negative (of_uint63 i) = true.
Proof.
  rewrite not_negative_spec.
  apply sf_signed_not_negative, of_uint63_signed.
Qed.

Lemma Math_round_not_negative (v : float) :
  not_negative v = true -> not_negative (Math_round v) = true.
Proof.
  intros Hv. unfold Math_round.
  pose proof Hv as Hs. rewrite not_negative_spec in Hs.
  destruct (Prim2SF v) as [sg|sg| |sg m e] eqn:E; try exact Hv.
  destruct sg; [discriminate|].
  destruct (0 <=? e)%Z eqn:He; [exact Hv|].
  apply Z.leb_gt in He.
  set (n := ((2 * Z.pos m + 2 ^ (- e)) / (2 * 2 ^ (- e)))%Z).
  assert (Hn : (0 <= n)%Z).
  { assert (0 < 2 ^ (- e))%Z by (apply Z.pow_pos_nonneg; lia).
    apply Z.div_pos; lia. }
  destruct (n =? 0)%Z; [reflexivity|].
  destruct (n <? 0)%Z eqn:Hlt; [apply Z.ltb_lt in Hlt; lia|].
  apply of_uint63_not_negative.
Qed.

Lemma Math_max_zero_not_negative (v : float) :
  not_negative (Math_max 0 v) = true.
Proof.
  unfold Math_max. change (is_nan 0) with false. simpl orb.
  destruct (is_nan v) eqn:Hv; [reflexivity|].
  destruct (0 <? v) eqn:H1.
  - unfold not_negative. now rewrite (ltb_leb _ _ H1).
  - destruct (v <? 0); change (get_sign 0) with false; reflexivity.
Qed.

(** The clamp [Math.max(0, Math.min(1, v))] of a number lies in [[0, 1]];
    the clamp of NaN is NaN. *)
Lemma clamp_unit (v : float) :
  if is_nan v then is_nan (Math_max 0 (Math_min 1 v)) = true
  else in_unit_interval (Math_max 0 (Math_min 1 v)) = true.
Proof.
  unfold Math_min. change (is_nan 1) with false. simpl orb.
  destruct (is_nan v) eqn:Hv; [reflexivity|].
  assert (Hclamp : forall w, is_nan w = false -> (w <=? 1) = true ->
            in_unit_interval (Math_max 0 w) = true).
  { intros w Hw Hle. unfold Math_max. change (is_nan 0) with false.
    rewrite Hw. simpl orb. unfold in_unit_interval.
    destruct (0 <? w) eqn:H0.
    - now rewrite (ltb_leb _ _ H0), Hle.
    - destruct (w <? 0); change (get_sign 0) with false; reflexivity. }
  destruct (1 <? v) eqn:H1; [reflexivity|].
  destruct (v <? 1) eqn:H2.
  - apply Hclamp; auto using ltb_leb.
  - change (get_sign 1) with false. simpl.
    apply Hclamp; auto. apply not_ltb_leb; auto.
Qed.

(** A quotient by a zero of either sign is never finite. *)
Lemma div_zero_not_finite (a b : float) :
  (b =? 0) = true -> not_finite (a / b) = true.
Proof.
  unfold not_finite, is_infinity.
  rewrite is_nan_spec, !eqb_spec, abs_spec, div_spec.
  change (Prim2SF 0) with (S754_zero false).
  change (Prim2SF infinity) with (S754_infinity false).
  unfold SF64div, SFeqb.
  destruct (Prim2SF b) as [sb|sb| |sb mb eb]; simpl;
    try discriminate; try (destruct sb; discriminate).
  intros _. destruct (Prim2SF a) as [sa|sa| |sa ma ea]; reflexivity.
Qed.


(** The built-ins on the values ECMAScript singles out. *)
Example Math_round_values :
  (Math_round 2.5, Math_round (-2.5), Math_round (-0.3),
   Math_round 0.49999999999999994, Math_round 1234.56, Math_round nan)
  = (3, -2, neg_zero, 0, 1235, nan).
Proof. vm_compute. reflexivity. Qed.

Example Math_max_min_values :
  (Math_max 0 (-3), Math_max 0 nan, Math_max neg_zero 0, Math_min 1 7,
   Math_min 10 infinity, Math_min 0 neg_zero)
  = (0, nan, 0, 1, 10, neg_zero).
Proof. vm_compute. reflexivity. Qed.

(** ** Rounding to nearest and the order

    The product and the quotient of binary64 values are rounded to nearest;
    rounding does not step over a number of the format.  Proved on the
    specification of rounding over [spec_float]. *)

Section Rounding.

Local Open Scope Z_scope.

Lemma shr_1_above (mrs : shr_record) (T : Z) :
  0 <= shr_m mrs -> record_above mrs <= 2 * T ->
  0 <= shr_m (shr_1 mrs) /\ record_above (shr_1 mrs) <= T.
Proof.
  destruct mrs as [m r s]. unfold record_above. cbn [shr_m shr_r shr_s].
  destruct m as [|p|p]; [| |lia];
    try destruct p; destruct r, s;
    cbn [shr_1 shr_m shr_r shr_s orb]; lia.
Qed.

Lemma iter_pos_above (n : positive) :
  forall (mrs : shr_record) (T : Z),
    0 <= shr_m mrs -> record_above mrs <= 2 ^ Z.pos n * T ->
    0 <= shr_m (iter_pos shr_1 n mrs) /\
    record_above (iter_pos shr_1 n mrs) <= T.
Proof.
  induction n as [n IH|n IH|]; intros mrs T Hm Hc; cbn [iter_pos].
  - replace (Z.pos n~1) with (1 + (Z.pos n + Z.pos n)) in Hc by lia.
    rewrite !Z.pow_add_r, Z.pow_1_r in Hc by lia.
    destruct (shr_1_above mrs (2 ^ Z.pos n * (2 ^ Z.pos n * T)) Hm)
      as [Hm1 Hc1]; [lia|].
    destruct (IH _ (2 ^ Z.pos n * T) Hm1 Hc1) as [Hm2 Hc2].
    exact (IH _ T Hm2 Hc2).
  - replace (Z.pos n~0) with (Z.pos n + Z.pos n) in Hc by lia.
    rewrite Z.pow_add_r in Hc by lia.
    destruct (IH mrs (2 ^ Z.pos n * T) Hm) as [Hm1 Hc1]; [lia|].
    exact (IH _ T Hm1 Hc1).
  - apply shr_1_above; [exact Hm|]. now rewrite Z.pow_1_r in Hc.
Qed.

Lemma digits2_pos_bounds (p : positive) :
  2 ^ (Z.pos (digits2_pos p) - 1) <= Z.pos p < 2 ^ Z.pos (digits2_pos p).
Proof.
  induction p as [p IH|p IH|]; cbn [digits2_pos]; [| |cbn; lia];
    rewrite Pos2Z.inj_succ;
    replace (Z.succ (Z.pos (digits2_pos p)) - 1)
      with (Z.succ (Z.pos (digits2_pos p) - 1)) by lia;
    rewrite (Z.pow_succ_r 2 (Z.pos (digits2_pos p) - 1)) by lia;
    rewrite (Z.pow_succ_r 2 (Z.pos (digits2_pos p))) by lia; lia.
Qed.

Lemma bounded_spec (m : positive) (e : Z) :
  bounded prec emax m e = true ->
  fexp prec emax (Z.pos (digits2_pos m) + e) = e /\ e <= emax - prec.
Proof.
  unfold bounded, canonical_mantissa. intros H.
  apply andb_prop in H as [H1 H2].
  apply Z.eqb_eq in H1. apply Z.leb_le in H2. now split.
Qed.

Lemma fexp_mono (a b : Z) : a <= b -> fexp prec emax a <= fexp prec emax b.
Proof. unfold fexp. lia. Qed.

(** A mantissa below a canonical number has its exponent no higher. *)
Lemma fexp_digits_le (m e : Z) (mB : positive) (eB : Z) :
  0 <= m -> e <= eB -> m <= Z.pos mB * 2 ^ (eB - e) ->
  bounded prec emax mB eB = true ->
  fexp prec emax (Zdigits2 m + e) <= eB.
Proof.
  intros Hm He Hle HB. apply bounded_spec in HB as [HB _].
  rewrite <- HB. apply fexp_mono.
  destruct m as [|p|p]; [cbn [Zdigits2]; lia| |lia].
  cbn [Zdigits2].
  pose proof (digits2_pos_bounds p) as [Hp _].
  pose proof (digits2_pos_bounds mB) as [_ HmB].
  assert (Hlt : 2 ^ (Z.pos (digits2_pos p) - 1)
                < 2 ^ (Z.pos (digits2_pos mB) + (eB - e))).
  { rewrite Z.pow_add_r by lia.
    assert (0 < 2 ^ (eB - e)) by (apply Z.pow_pos_nonneg; lia). nia. }
  apply Z.pow_lt_mono_r_iff in Hlt; lia.
Qed.

Lemma shr_above (mrs : shr_record) (e n : Z) (mB : positive) (eB : Z) :
  0 <= shr_m mrs -> e + Z.max n 0 <= eB ->
  record_above mrs <= Z.pos mB * 2 ^ (eB - e) ->
  snd (shr mrs e n) = e + Z.max n 0 /\
  0 <= shr_m (fst (shr mrs e n)) /\
  record_above (fst (shr mrs e n))
  <= Z.pos mB * 2 ^ (eB - snd (shr mrs e n)).
Proof.
  intros Hm He Hc. destruct n as [|n|n]; cbn [shr fst snd].
  - rewrite Z.add_0_r. repeat split; assumption.
  - replace (Z.max (Z.pos n) 0) with (Z.pos n) in * by lia.
    split; [reflexivity|].
    apply iter_pos_above; [exact Hm|].
    replace (eB - e) with (Z.pos n + (eB - (e + Z.pos n))) in Hc by lia.
    rewrite Z.pow_add_r in Hc by lia. lia.
  - replace (Z.max (Z.neg n) 0) with 0 by lia. rewrite Z.add_0_r.
    repeat split; assumption.
Qed.

Lemma round_nearest_even_above (mrs : shr_record) :
  shr_m mrs <= round_nearest_even (shr_m mrs) (loc_of_shr_record mrs)
  <= record_above mrs.
Proof.
  destruct mrs as [m r s]. unfold record_above.
  destruct r, s;
    cbn [shr_m shr_r shr_s orb loc_of_shr_record round_nearest_even];
    try destruct (Z.even m); lia.
Qed.

(** Rounding to nearest does not step over a number of the format: what is
    not above a canonical number is rounded to a number not above it. *)
Lemma binary_round_aux_le (mz ez : Z) (l : location) (mB : positive)
    (eB : Z) :
  0 <= mz -> bounded prec emax mB eB = true -> ez <= eB ->
  record_above (shr_record_of_loc mz l) <= Z.pos mB * 2 ^ (eB - ez) ->
  SFleb (binary_round_aux prec emax false mz ez l) (S754_finite false mB eB)
  = true.
Proof.
  intros Hmz HB Hez Hc.
  assert (Hmz' : mz <= Z.pos mB * 2 ^ (eB - ez)).
  { revert Hc. unfold record_above.
    destruct l as [|[]]; cbn [shr_record_of_loc shr_m shr_r shr_s orb]; lia. }
  assert (Hrec : shr_m (shr_record_of_loc mz l) = mz)
    by (destruct l as [|[]]; reflexivity).
  unfold binary_round_aux, shr_fexp.
  set (n := fexp prec emax (Zdigits2 mz + ez) - ez).
  destruct (shr_above (shr_record_of_loc mz l) ez n mB eB)
    as (He1 & Hm1 & Hc1); [lia| |exact Hc|].
  { pose proof (fexp_digits_le mz ez mB eB Hmz Hez Hmz' HB). lia. }
  destruct (shr (shr_record_of_loc mz l) ez n) as [mrs1 e1].
  cbn [fst snd] in He1, Hm1, Hc1.
  pose proof (round_nearest_even_above mrs1) as Hround.
  set (m1 := round_nearest_even (shr_m mrs1) (loc_of_shr_record mrs1)) in *.
  assert (He1B : e1 <= eB).
  { pose proof (fexp_digits_le mz ez mB eB Hmz Hez Hmz' HB). lia. }
  set (n2 := fexp prec emax (Zdigits2 m1 + e1) - e1).
  destruct (shr_above (shr_record_of_loc m1 loc_Exact) e1 n2 mB eB)
    as (He2 & Hm2 & Hc2).
  { cbn [shr_record_of_loc shr_m]. lia. }
  { pose proof (fexp_digits_le m1 e1 mB eB ltac:(lia) He1B ltac:(lia) HB).
    lia. }
  { unfold record_above. cbn [shr_record_of_loc shr_m shr_r shr_s orb]. lia. }
  destruct (shr (shr_record_of_loc m1 loc_Exact) e1 n2) as [mrs2 e2].
  cbn [fst snd] in He2, Hm2, Hc2.
  assert (He2B : e2 <= eB).
  { pose proof (fexp_digits_le m1 e1 mB eB ltac:(lia) He1B ltac:(lia) HB).
    lia. }
  assert (Hm2B : shr_m mrs2 <= Z.pos mB * 2 ^ (eB - e2)).
  { revert Hc2. unfold record_above. destruct (_ || _); lia. }
  destruct (bounded_spec _ _ HB) as [_ HeB].
  destruct (shr_m mrs2) as [|m|m]; [reflexivity| |lia].
  replace (e2 <=? emax - prec) with true by (symmetry; apply Z.leb_le; lia).
  unfold SFleb, SFcompare.
  destruct (Z.compare_spec e2 eB) as [->| |]; [|reflexivity|lia].
  rewrite Z.sub_diag, Z.mul_1_r in Hm2B.
  change (Pos.compare_cont Eq m mB) with (m ?= mB)%positive.
  destruct (Pos.compare_spec m mB); try reflexivity. lia.
Qed.

Lemma fexp_value (a : Z) : fexp prec emax a = Z.max (a - 53) (-1074).
Proof. reflexivity. Qed.

Lemma bounded_digits (m : positive) (e : Z) :
  bounded prec emax m e = true -> Z.pos m < 2 ^ 53.
Proof.
  intros H. apply bounded_spec in H as [H _]. rewrite fexp_value in H.
  pose proof (digits2_pos_bounds m) as [_ Hm].
  apply (Z.lt_le_trans _ _ _ Hm). apply Z.pow_le_mono_r; lia.
Qed.
Lemma Prim2SF_one : Prim2SF 1 = S754_finite false 4503599627370496 (-52).
Proof. vm_compute. reflexivity. Qed.
Lemma SFleb_finite (m1 m2 : positive) (e1 e2 : Z) :
  SFleb (S754_finite false m1 e1) (S754_finite false m2 e2) = true ->
  e1 < e2 \/ (e1 = e2 /\ Z.pos m1 <= Z.pos m2).
Proof.
  unfold SFleb, SFcompare.
  change (Pos.compare_cont Eq m1 m2) with (m1 ?= m2)%positive.
  destruct (Z.compare_spec e1 e2); [|now left|discriminate].
  destruct (Pos.compare_spec m1 m2); try discriminate; intros _; right; lia.
Qed.

Lemma mul_fraction_below (f K : float) :
  (0 <=? f)%float = true -> (f <=? 1)%float = true ->
  not_negative K = true -> below (f * K) K = true.
Proof.
  unfold below.
  rewrite not_negative_spec, is_nan_spec, !leb_spec, mul_spec.
  change (Prim2SF 0) with (S754_zero false).
  rewrite Prim2SF_one.
  unfold SF64mul.
  pose proof (Prim2SF_valid f) as Hvf. pose proof (Prim2SF_valid K) as HvK.
  destruct (Prim2SF f) as [sf|sf| |sf mf ef], (Prim2SF K) as [sK|sK| |sK mK eK];
    try destruct sf; try destruct sK;
    intros H0 H1 HK; try discriminate; try reflexivity.
  cbn [SFmul xorb]. cbn [valid_binary] in Hvf, HvK.
  apply SFleb_finite in H1.
  pose proof (bounded_digits mf ef Hvf) as Hmf.
  rewrite binary_round_aux_le; [reflexivity|lia|exact HvK|lia|].
  unfold record_above. cbn [shr_record_of_loc shr_m shr_r shr_s orb].
  replace (eK - (ef + eK)) with (- ef) by lia.
  rewrite Pos2Z.inj_mul, (Z.mul_comm (Z.pos mf)).
  apply Z.mul_le_mono_nonneg_l; [lia|].
  destruct H1 as [Hlt|[-> Hle]].
  - assert (2 ^ 53 <= 2 ^ (- ef)) by (apply Z.pow_le_mono_r; lia). lia.
  - exact Hle.
Qed.

Lemma Pos_iter_xO (k p : positive) :
  Z.pos (Pos.iter xO p k) = Z.pos p * 2 ^ Z.pos k /\
  Z.pos (digits2_pos (Pos.iter xO p k)) = Z.pos (digits2_pos p) + Z.pos k.
Proof.
  induction k as [|k [IH1 IH2]] using Pos.peano_ind.
  - cbn [Pos.iter digits2_pos]. rewrite Z.pow_1_r. lia.
  - rewrite Pos.iter_succ. cbn [digits2_pos].
    rewrite Pos2Z.inj_xO, IH1, !Pos2Z.inj_succ, IH2.
    rewrite Z.pow_succ_r by lia. lia.
Qed.

(** A canonical number is left as it is by rounding. *)
Lemma binary_round_aux_canonical (sg : bool) (m : positive) (e : Z) :
  bounded prec emax m e = true ->
  binary_round_aux prec emax sg (Z.pos m) e loc_Exact = S754_finite sg m e.
Proof.
  intros H. apply bounded_spec in H as [Hc He].
  unfold binary_round_aux, shr_fexp. cbn [Zdigits2].
  rewrite Hc, Z.sub_diag.
  cbn [shr shr_record_of_loc shr_m loc_of_shr_record round_nearest_even
       Zdigits2].
  rewrite Hc, Z.sub_diag. cbn [shr shr_record_of_loc shr_m].
  apply Z.leb_le in He. now rewrite He.
Qed.

(** A positive integer below 2^53 is converted exactly, to a normal
    number. *)
Lemma of_nat_exact (n : nat) :
  (0 < n)%nat -> Z.of_nat n < 2 ^ 53 ->
  exists m e,
    Prim2SF (of_nat n) = S754_finite false m e /\
    -52 <= e <= 0 /\ Z.pos m = Z.of_nat n * 2 ^ (- e) /\
    Z.pos (digits2_pos m) = 53.
Proof.
  intros Hpos Hn. unfold of_nat. rewrite of_uint63_spec.
  change (Uint63Axioms.to_Z (Uint63.of_Z (Z.of_nat n)))
    with (Uint63.to_Z (Uint63.of_Z (Z.of_nat n))).
  rewrite Uint63.of_Z_spec, Z.mod_small
    by (split; [lia|]; apply (Z.lt_trans _ _ _ Hn); reflexivity).
  destruct (Z.of_nat n) as [|p|p] eqn:Hp; [lia| |lia].
  cbn [binary_normalize]. unfold binary_round.
  pose proof (digits2_pos_bounds p) as [Hlow _].
  set (d := Z.pos (digits2_pos p)) in *.
  assert (Hd : 1 <= d <= 53).
  { split; [unfold d; lia|].
    assert (Hlt : 2 ^ (d - 1) < 2 ^ 53) by lia.
    apply Z.pow_lt_mono_r_iff in Hlt; lia. }
  rewrite fexp_value. replace (Z.max (d + 0 - 53) (-1074)) with (d - 53) by lia.
  unfold shl_align.
  destruct (d - 53 - 0) as [|k|k] eqn:Hk; [|lia|].
  - rewrite binary_round_aux_canonical.
    + exists p, 0. repeat split; try lia; fold d; lia.
    + unfold bounded, canonical_mantissa. fold d.
      rewrite fexp_value. replace d with 53 by lia. reflexivity.
  - destruct (Pos_iter_xO k p) as [Hm Hdig]. fold d in Hdig.
    rewrite binary_round_aux_canonical.
    + exists (Pos.iter xO p k), (d - 53).
      split; [reflexivity|]. split; [lia|]. split; [|lia].
      rewrite Hm. f_equal. f_equal. lia.
    + unfold bounded, canonical_mantissa. rewrite Hdig, fexp_value.
      apply andb_true_intro. split; [apply Z.eqb_eq; lia|].
      apply Z.leb_le. change (emax - prec) with 971. lia.
Qed.

Lemma new_location_zero (nb_steps : Z) : new_location nb_steps 0 = loc_Exact.
Proof.
  unfold new_location, new_location_even, new_location_odd.
  now destruct (Z.even nb_steps).
Qed.

Lemma record_above_loc (q : Z) (l : location) :
  record_above (shr_record_of_loc q l) <= q + 1.
Proof.
  unfold record_above.
  destruct l as [|[]]; cbn [shr_record_of_loc shr_m shr_r shr_s orb]; lia.
Qed.

(** So is 2^53, the last counter a loop reaches. *)
Lemma of_nat_normal (n : nat) :
  (0 < n)%nat -> Z.of_nat n <= 2 ^ 53 ->
  exists m e,
    Prim2SF (of_nat n) = S754_finite false m e /\
    -52 <= e <= 1 /\ Z.pos m * 2 ^ (e + 52) = Z.of_nat n * 2 ^ 52 /\
    Z.pos (digits2_pos m) = 53.
Proof.
  intros Hpos Hn. destruct (Z.eq_dec (Z.of_nat n) (2 ^ 53)) as [Heq|Hne].
  - exists 4503599627370496%positive, 1. unfold of_nat. rewrite Heq.
    split; [vm_compute; reflexivity|]. repeat split; lia.
  - destruct (of_nat_exact n Hpos ltac:(lia))
      as (m & e & Hm & He & Hval & Hdig).
    exists m, e. repeat split; try assumption; try lia.
    rewrite Hval, <- Z.mul_assoc, <- Z.pow_add_r by lia.
    f_equal. f_equal. lia.
Qed.

(** The quotient of a counter by a larger one is at most 1. *)
Lemma fraction_below_one (i N : nat) :
  (i < N)%nat -> Z.of_nat N <= 2 ^ 53 ->
  (of_nat i / of_nat N <=? 1)%float = true.
Proof.
  intros Hi HN. rewrite leb_spec, div_spec. unfold SF64div.
  rewrite Prim2SF_one.
  destruct (of_nat_normal N ltac:(lia) HN)
    as (mb & eb & -> & Heb & Hmb & Hdb).
  destruct i as [|i].
  { change (Prim2SF (of_nat 0)) with (S754_zero false). reflexivity. }
  destruct (of_nat_normal (S i) ltac:(lia) ltac:(lia))
    as (ma & ea & -> & Hea & Hma & Hda).
  pose proof (digits2_pos_bounds ma) as [Hma_low _].
  pose proof (digits2_pos_bounds mb) as [_ Hmb_up].
  rewrite Hda in Hma_low. rewrite Hdb in Hmb_up.
  change (2 ^ (53 - 1)) with 4503599627370496 in Hma_low.
  change (2 ^ 53) with (2 * 4503599627370496) in Hmb_up.
  change (2 ^ 52) with 4503599627370496 in Hma, Hmb.
  assert (HA : 0 < 2 ^ (ea + 52)) by (apply Z.pow_pos_nonneg; lia).
  assert (HB : 0 < 2 ^ (eb + 52)) by (apply Z.pow_pos_nonneg; lia).
  assert (Hlt : Z.pos ma * 2 ^ (ea + 52) < Z.pos mb * 2 ^ (eb + 52)) by nia.
  assert (Hexp : ea <= eb).
  { destruct (Z.le_gt_cases ea eb) as [|Hgt]; [assumption|exfalso].
    assert (H2 : 2 ^ (ea + 52) = 2 ^ (eb + 52) * 2 ^ (ea - eb)).
    { rewrite <- Z.pow_add_r by lia. f_equal. lia. }
    assert (2 ^ 1 <= 2 ^ (ea - eb)) by (apply Z.pow_le_mono_r; lia).
    change (2 ^ 1) with 2 in *. nia. }
  cbn [SFdiv xorb]. unfold SFdiv_core_binary. cbn [Zdigits2].
  rewrite Hda, Hdb, fexp_value.
  replace (Z.min (Z.max (53 + ea - (53 + eb) - 53) (-1074)) (ea - eb))
    with (ea - eb - 53) by lia.
  replace (ea - eb - (ea - eb - 53)) with 53 by lia.
  rewrite Z.shiftl_mul_pow2 by lia.
  change (2 ^ 53) with (2 * 4503599627370496).
  pose proof (Z_div_mod (Z.pos ma * (2 * 4503599627370496)) (Z.pos mb)
                ltac:(lia)) as Hdiv.
  destruct (Z.div_eucl (Z.pos ma * (2 * 4503599627370496)) (Z.pos mb))
    as [q r].
  destruct Hdiv as [Hqr Hr].
  assert (HC : 0 < 2 ^ (eb - ea + 1)) by (apply Z.pow_pos_nonneg; lia).
  assert (HAC : 2 ^ (ea + 52) * 2 ^ (eb - ea + 1) = 2 * 2 ^ (eb + 52)).
  { rewrite <- Z.pow_add_r by lia.
    replace (ea + 52 + (eb - ea + 1)) with (Z.succ (eb + 52)) by lia.
    apply Z.pow_succ_r. lia. }
  assert (Hq : 0 <= q) by nia.
  assert (Hbound : 2 * Z.pos ma < Z.pos mb * 2 ^ (eb - ea + 1)).
  { apply (Z.mul_lt_mono_pos_r (2 ^ (ea + 52))); [exact HA|].
    rewrite <- (Z.mul_assoc (Z.pos mb)), (Z.mul_comm (2 ^ (eb - ea + 1))),
      HAC.
    lia. }
  apply binary_round_aux_le; [exact Hq|reflexivity|lia|].
  replace (-52 - (ea - eb - 53)) with (eb - ea + 1) by lia.
  destruct (Z.eq_dec r 0) as [->|Hr0].
  - rewrite new_location_zero. unfold record_above.
    cbn [shr_record_of_loc shr_m shr_r shr_s orb]. nia.
  - pose proof (record_above_loc q (new_location (Z.pos mb) r)). nia.
Qed.

Lemma leb_not_nan (a b : float) :
  (a <=? b)%float = true -> is_nan a = false.
Proof.
  rewrite leb_spec, is_nan_spec. unfold SFleb.
  now destruct (Prim2SF a).
Qed.

(** A grid coordinate is not above its range. *)
Lemma grid_coordinate_below (i N : nat) (range : float) :
  (i < N)%nat -> Z.of_nat N <= 2 ^ 53 -> not_negative range = true ->
  below ((of_nat i / of_nat N) * range) range = true.
Proof.
  intros Hi HN Hrange.
  pose proof (fraction_below_one i N Hi HN) as Hone.
  apply mul_fraction_below; [|exact Hone|exact Hrange].
  pose proof (div_not_negative (of_nat i) (of_nat N)
                (of_uint63_signed _) (of_uint63_not_negative _)) as Hpos.
  unfold not_negative in Hpos.
  now rewrite (leb_not_nan _ _ Hone), orb_false_r in Hpos.
Qed.

End Rounding.

(** ** The resource function *)

(** C2, as stated, fails: "for every valid parameter set and every time the
    resource level lies in [0, 1]" is refuted by [abundant], whose
    non-seasonal base level 5 is returned as it is. *)
Lemma resource_level_can_exceed_one :
  ~ (forall (Math_sin : float -> float) (p : SimulationParameters) (t : float),
        valid_parameters p = true ->
        in_unit_interval (calculateResourceLevel Math_sin (constructor p) t)
        = true).
Proof.
  intros H.
  specialize (H sin_taylor abundant 0 eq_refl).
  vm_compute in H. discriminate H.
Qed.

(** With an infinite amplitude the seasonal level is NaN at time 0, where
    the sine is 0: [Infinity * 0] is NaN, and the clamp keeps it. *)
Lemma resource_level_can_be_nan :
  valid_parameters infiniteAmplitude = true /\
  seasonalVariation (environment infiniteAmplitude) = true /\
  sin_taylor (2 * Math_PI * 0 / 12) = 0 /\
  is_nan (calculateResourceLevel sin_taylor (constructor infiniteAmplitude) 0)
  = true /\
  in_unit_interval
    (calculateResourceLevel sin_taylor (constructor infiniteAmplitude) 0)
  = false.
Proof. vm_compute. repeat split. Qed.

(** C2, amended: for every valid parameter set and time [t], without seasonal
    variation the resource function returns the base level unchanged, which
    lies in [0, 1] when the base is at most 1; with seasonal variation it
    returns the clamp [Math.max(0, Math.min(1, v))] of
    [v = base + amplitude * sin(2 pi t / 12)], which lies in [0, 1] unless
    that sum is NaN, and is NaN then. *)
Theorem resource_level_range
    (Math_sin : float -> float) (p : SimulationParameters) (t : float) :
  valid_parameters p = true ->
  let base := resourceAvailability (environment p) in
  let level := calculateResourceLevel Math_sin (constructor p) t in
  if seasonalVariation (environment p) then
    let v := base + seasonalAmplitude (environment p)
                    * Math_sin (2 * Math_PI * t / 12) in
    level = Math_max 0 (Math_min 1 v) /\
    if is_nan v then is_nan level = true else in_unit_interval level = true
  else
    level = base /\ ((base <=? 1) = true -> in_unit_interval level = true).
Proof.
  intros Hvalid base level. subst level.
  unfold calculateResourceLevel. cbn [params constructor].
  destruct (seasonalVariation (environment p)); cbn [negb].
  - split; [reflexivity|]. apply clamp_unit.
  - split; [reflexivity|]. intros Hle. unfold in_unit_interval.
    fold base. rewrite Hle, andb_true_r.
    unfold valid_parameters in Hvalid.
    repeat (apply andb_prop in Hvalid; destruct Hvalid as [Hvalid ?]).
    assumption.
Qed.

(** The seasonal preset, one time unit into the year. *)
Lemma resource_level_range_witness :
  valid_parameters boomAndBust = true /\
  calculateResourceLevel sin_taylor (constructor boomAndBust) 1
  = Math_max 0 (Math_min 1 (0.6 + 0.4 * sin_taylor (2 * Math_PI * 1 / 12))) /\
  in_unit_interval
    (calculateResourceLevel sin_taylor (constructor boomAndBust) 1) = true.
Proof.
  split; [reflexivity|].
  exact (resource_level_range sin_taylor boomAndBust 1 eq_refl).
Defined.

(** ** The derivative function *)

(** C7: the derivative function returns exactly the two equations of the
    specification, with the constants 0.5, 10 and 2.0. *)
Theorem derivative_formula (this : Simulator) (P Q r : float) :
  let d := calculateDerivatives this P Q r in
  (dPreyDt d, dPredatorDt d) = derivative_equations (params this) P Q r.
Proof.
  unfold calculateDerivatives, derivative_equations.
  cbn [dPreyDt dPredatorDt].
  now rewrite (mul_comm 0.5 (huntingEfficiency (predator (params this)))).
Qed.

(** ** The equilibrium predictor *)

(** C1, as stated, fails: with [huntingEfficiency = 0] the predictor throws
    nothing; on [noHunting] it returns prey 4000, predator Infinity and
    [isStable = true]. *)
Lemma predictor_returns_infinity :
  huntingEfficiency (predator noHunting) = 0 /\
  predictEquilibrium noHunting <> Throw DivisionByZero /\
  predictEquilibrium noHunting =
    Normal {| pred_prey := 4000; pred_predator := infinity; isStable := true |}.
Proof.
  split; [reflexivity|]. split; [discriminate|]. vm_compute. reflexivity.
Qed.

(** C1, amended: the predictor never fails; for every parameter set with
    [huntingEfficiency = 0] it returns normally, and the predator estimate of
    the result is not finite (Infinity, -Infinity or NaN). *)
Theorem predictor_zero_hunting (p : SimulationParameters) :
  (huntingEfficiency (predator p) =? 0) = true ->
  exists r, predictEquilibrium p = Normal r /\
            not_finite (pred_predator r) = true.
Proof.
  intros Hzero. unfold predictEquilibrium. eexists. split; [reflexivity|].
  cbn [pred_predator]. now apply div_zero_not_finite.
Qed.

Lemma predictor_zero_hunting_witness :
  (huntingEfficiency (predator noHunting) =? 0) = true /\
  exists r, predictEquilibrium noHunting = Normal r /\
            not_finite (pred_predator r) = true.
Proof.
  split; [reflexivity|].
  exact (predictor_zero_hunting noHunting eq_refl).
Defined.

(** ** The phase-space sampler *)

Lemma fold_left_ext {A B : Type} (f g : A -> B -> A) (l : list B) (a : A) :
  (forall a b, f a b = g a b) -> fold_left f l a = fold_left g l a.
Proof.
  intros Hfg. revert a.
  induction l as [|b l IH]; intros a; cbn; [reflexivity|].
  now rewrite Hfg, IH.
Qed.

(** A loop that pushes one element per round appends the elements in the
    order of the rounds. *)
Lemma fold_left_push {A B : Type} (f : B -> A) (l : list B) (t : list A) :
  fold_left (fun t j => push t (f j)) l t = t ++ map f l.
Proof.
  revert t. induction l as [|b l IH]; intros t; cbn.
  - now rewrite app_nil_r.
  - rewrite IH. unfold push. now rewrite <- app_assoc.
Qed.

Lemma fold_left_append {A B : Type} (g : B -> list A) (l : list B)
    (t : list A) :
  fold_left (fun t i => t ++ g i) l t = t ++ flat_map g l.
Proof.
  revert t. induction l as [|b l IH]; intros t; cbn.
  - now rewrite app_nil_r.
  - rewrite IH. now rewrite <- app_assoc.
Qed.

(** The two nested loops enumerate the grid row by row. *)
Lemma calculatePhaseSpace_rows (p : SimulationParameters) (N : nat) :
  calculatePhaseSpace p N =
  flat_map (fun i =>
    map (phase_point p N (predator_initialPopulation (predator p) * 10)
           ((of_nat i / of_nat N) * carryingCapacity (prey p)))
        (seq 0 N))
    (seq 0 N).
Proof.
  unfold calculatePhaseSpace, for_range.
  erewrite fold_left_ext.
  - rewrite fold_left_append. reflexivity.
  - intros t i. cbv beta zeta. apply fold_left_push.
Qed.

Lemma length_flat_map_const {A B : Type} (g : B -> list A) (l : list B)
    (n : nat) :
  (forall b, length (g b) = n) -> length (flat_map g l) = (length l * n)%nat.
Proof.
  intros Hg. induction l as [|b l IH]; cbn; [reflexivity|].
  now rewrite length_app, Hg, IH.
Qed.

(** C8: the sampler returns exactly N * N entries, and the [(dx, dy)] of each
    entry is the derivative function applied to the entry's [(x, y)] and the
    base resource level. *)
Theorem phase_space_exact (p : SimulationParameters) (N : nat) :
  length (calculatePhaseSpace p N) = (N * N)%nat /\
  Forall (fun e =>
            let d := calculateDerivatives (constructor p) (x e) (y e)
                       (resourceAvailability (environment p)) in
            dx e = dPreyDt d /\ dy e = dPredatorDt d)
         (calculatePhaseSpace p N).
Proof.
  rewrite calculatePhaseSpace_rows. split.
  - rewrite (length_flat_map_const _ _ N).
    + now rewrite length_seq.
    + intros i. now rewrite length_map, length_seq.
  - apply Forall_flat_map, Forall_forall. intros i _.
    apply Forall_map, Forall_forall. intros j _.
    split; reflexivity.
Qed.

(** C9, as stated, fails: the grid does not reach the upper bounds.  For
    [balanced] (carrying capacity 5000, predator range 1000) and N = 2 the
    sampled coordinates are 0 and 2500, 0 and 500. *)
Lemma phase_space_misses_upper_bounds :
  carryingCapacity (prey balanced) = 5000 /\
  predator_initialPopulation (predator balanced) * 10 = 1000 /\
  coordinates (calculatePhaseSpace balanced 2)
  = [(0, 0); (0, 500); (2500, 0); (2500, 500)] /\
  existsb (fun e => (x e =? 5000) || (y e =? 1000))
          (calculatePhaseSpace balanced 2) = false.
Proof. vm_compute. repeat split. Qed.

Lemma leb_zero_not_negative (v : float) :
  (0 <=? v) = true -> not_negative v = true.
Proof. intros H. unfold not_negative. now rewrite H. Qed.

(** A grid fraction [i / points] times a range that is not negative. *)
Lemma grid_coordinate_not_negative (i N : nat) (range : float) :
  not_negative range = true ->
  not_negative ((of_nat i / of_nat N) * range) = true.
Proof.
  intros Hrange. apply mul_not_negative; [|exact Hrange].
  apply div_not_negative; [apply of_uint63_signed|].
  apply of_uint63_not_negative.
Qed.

(** The counters of a loop are below its bound. *)
Lemma Forall_grid {A : Type} (P : A -> Prop) (N : nat)
    (cell : nat -> nat -> A) :
  (forall i j, (i < N)%nat -> (j < N)%nat -> P (cell i j)) ->
  Forall P (flat_map (fun i => map (cell i) (seq 0 N)) (seq 0 N)).
Proof.
  intros Hcell. apply Forall_flat_map, Forall_forall. intros i Hi.
  apply Forall_map, Forall_forall. intros j Hj.
  apply in_seq in Hi. apply in_seq in Hj. apply Hcell; lia.
Qed.

(** C9, amended: the N * N grid points are, row by row, the pairs
    [((i / N) * carryingCapacity, (j / N) * (predatorInitialPopulation * 10))]
    for i, j = 0 .. N - 1; for valid parameters every coordinate lies in the
    rectangle, unless it is NaN: it is not below the lower bound 0 and, for
    the resolutions a loop counter reaches (N <= 2^53), not above its upper
    bound, [carryingCapacity] or [predatorInitialPopulation * 10].  The
    upper bounds themselves need not be sampled. *)
Theorem phase_space_coordinates (p : SimulationParameters) (N : nat) :
  coordinates (calculatePhaseSpace p N) =
  flat_map (fun i =>
    map (fun j =>
           ((of_nat i / of_nat N) * carryingCapacity (prey p),
            (of_nat j / of_nat N)
            * (predator_initialPopulation (predator p) * 10)))
        (seq 0 N))
    (seq 0 N)
  /\
  (valid_parameters p = true ->
   Forall (fun c => not_negative (fst c) = true /\
                    not_negative (snd c) = true)
          (coordinates (calculatePhaseSpace p N)))
  /\
  (valid_parameters p = true -> (Z.of_nat N <= 2 ^ 53)%Z ->
   Forall (fun c =>
             below (fst c) (carryingCapacity (prey p)) = true /\
             below (snd c) (predator_initialPopulation (predator p) * 10)
             = true)
          (coordinates (calculatePhaseSpace p N))).
Proof.
  assert (Hgrid : coordinates (calculatePhaseSpace p N) =
    flat_map (fun i =>
      map (fun j =>
             ((of_nat i / of_nat N) * carryingCapacity (prey p),
              (of_nat j / of_nat N)
              * (predator_initialPopulation (predator p) * 10)))
          (seq 0 N))
      (seq 0 N)).
  { unfold coordinates. rewrite calculatePhaseSpace_rows.
    induction (seq 0 N) as [|i l IH] at 2 4; cbn [flat_map map].
    - reflexivity.
    - rewrite map_app, IH, map_map. reflexivity. }
  assert (Hranges : valid_parameters p = true ->
            not_negative (carryingCapacity (prey p)) = true /\
            not_negative (predator_initialPopulation (predator p) * 10)
            = true).
  { intros Hvalid. unfold valid_parameters in Hvalid.
    repeat (apply andb_prop in Hvalid; destruct Hvalid as [Hvalid ?]).
    split; [now apply leb_zero_not_negative|].
    apply mul_not_negative; [now apply leb_zero_not_negative|reflexivity]. }
  split; [exact Hgrid|]. split.
  - intros Hvalid. destruct (Hranges Hvalid) as [Hprey Hpredator].
    rewrite Hgrid. apply Forall_grid. intros i j _ _. cbn [fst snd].
    split; apply grid_coordinate_not_negative; assumption.
  - intros Hvalid HN. destruct (Hranges Hvalid) as [Hprey Hpredator].
    rewrite Hgrid. apply Forall_grid. intros i j Hi Hj. cbn [fst snd].
    split; apply grid_coordinate_below; assumption.
Qed.

(** On the Balanced preset with a two by two grid. *)
Lemma phase_space_coordinates_witness :
  valid_parameters balanced = true /\ (Z.of_nat 2 <= 2 ^ 53)%Z /\
  Forall (fun c => not_negative (fst c) = true /\ not_negative (snd c) = true)
         (coordinates (calculatePhaseSpace balanced 2)) /\
  Forall (fun c =>
            below (fst c) (carryingCapacity (prey balanced)) = true /\
            below (snd c)
                  (predator_initialPopulation (predator balanced) * 10)
            = true)
         (coordinates (calculatePhaseSpace balanced 2)).
Proof.
  assert (HN : (Z.of_nat 2 <= 2 ^ 53)%Z) by (vm_compute; discriminate).
  pose proof (phase_space_coordinates balanced 2) as (_ & Hlow & Hup).
  exact (conj eq_refl (conj HN (conj (Hlow eq_refl) (Hup eq_refl HN)))).
Defined.

(** ** The run-to-completion driver *)

Section Driver.

Variable Math_sin : float -> float.
Variable Math_pow : float -> float -> float.

Local Abbreviation record := (record Math_sin).
Local Abbreviation integrate := (integrate Math_sin).
Local Abbreviation checkEquilibrium := (checkEquilibrium Math_pow).
Local Abbreviation equilibrium_phase := (equilibrium_phase Math_pow).
Local Abbreviation store_history := (store_history Math_sin).
Local Abbreviation loop_body := (loop_body Math_sin Math_pow).
Local Abbreviation while_loop := (while_loop Math_sin Math_pow).
Local Abbreviation iterations := (iterations Math_sin Math_pow).
Local Abbreviation simulate := (simulate Math_sin Math_pow).
Local Abbreviation finish := (finish Math_sin).

(** *** What each phase of the loop body does *)

Lemma store_history_cases (this : Simulator) (lastRecord : float) :
  store_history this lastRecord =
  if geb (currentTime this - lastRecord) recordInterval
  then (set_history this (history this ++ [record this]), currentTime this)
  else (this, lastRecord).
Proof. reflexivity. Qed.

Lemma checkEquilibrium_cases (this : Simulator) :
  checkEquilibrium this = (false, this) \/
  (equilibriumBufferSize <= length (history this))%nat /\
  checkEquilibrium this = (true, set_equilibrium this (window_point this)).
Proof.
  unfold checkEquilibrium.
  destruct (length (history this) <? equilibriumBufferSize)%nat eqn:Hlen;
    [now left|].
  apply Nat.ltb_ge in Hlen.
  match goal with |- context [if ?c then _ else _] => destruct c end;
    [right; split; [exact Hlen|reflexivity] | now left].
Qed.

Lemma equilibrium_phase_cases (this : Simulator) :
  equilibrium_phase this = this \/
  equilibriumReached this = false /\
  (equilibriumBufferSize <= length (history this))%nat /\
  equilibrium_phase this =
    set_maxTime (set_equilibrium this (window_point this))
                (shrunk_horizon (maxTime this) (currentTime this)).
Proof.
  unfold equilibrium_phase.
  destruct (equilibriumReached this) eqn:Hreached; cbn [negb]; [now left|].
  destruct (checkEquilibrium_cases this) as [H|[Hlen H]]; rewrite H.
  - now left.
  - right. repeat split; assumption.
Qed.

(** The body of the loop: a [break] with the flag set exactly when a
    population is below 1 after the integration step. *)
Lemma loop_body_cases (this : Simulator) (lastRecord : float) :
  let this1 := fst (store_history this lastRecord) in
  let this2 := integrate this1 in
  loop_body this lastRecord =
  if below_one this2 then Break (set_extinctionOccurred this2)
  else
    let this4 := equilibrium_phase this2 in
    Continue (set_currentTime this4 (currentTime this4 + dt))
             (snd (store_history this lastRecord)).
Proof.
  unfold loop_body, checkExtinction, below_one.
  destruct (store_history this lastRecord) as [this1 lastRecord1].
  cbn [fst snd].
  destruct ((preyPop _ <? 1) || (predatorPop _ <? 1)); reflexivity.
Qed.

(** The fields an execution of the body leaves alone or changes. *)
Lemma store_history_frame (this : Simulator) (lastRecord : float) :
  let this1 := fst (store_history this lastRecord) in
  params this1 = params this /\ currentTime this1 = currentTime this /\
  maxTime this1 = maxTime this /\ preyPop this1 = preyPop this /\
  predatorPop this1 = predatorPop this /\
  equilibriumReached this1 = equilibriumReached this /\
  equilibriumPoint this1 = equilibriumPoint this /\
  extinctionOccurred this1 = extinctionOccurred this.
Proof.
  rewrite store_history_cases.
  destruct (geb _ _); cbn; repeat split; reflexivity.
Qed.

Lemma equilibrium_phase_frame (this : Simulator) :
  let this' := equilibrium_phase this in
  params this' = params this /\ currentTime this' = currentTime this /\
  history this' = history this /\ preyPop this' = preyPop this /\
  predatorPop this' = predatorPop this /\
  extinctionOccurred this' = extinctionOccurred this.
Proof.
  destruct (equilibrium_phase_cases this) as [H|(_ & _ & H)]; cbv zeta;
    rewrite H; repeat split; reflexivity.
Qed.

(** *** Traces *)

Lemma iterations_cons (fuel : nat) (this : Simulator) (lastRecord : float) :
  iterations (S fuel) this lastRecord =
  if loop_guard this then
    (this, loop_body this lastRecord) ::
    match loop_body this lastRecord with
    | Break _ => []
    | Continue this' lastRecord' => iterations fuel this' lastRecord'
    end
  else [].
Proof. reflexivity. Qed.

Lemma while_loop_cons (fuel : nat) (this : Simulator) (lastRecord : float) :
  while_loop (S fuel) this lastRecord =
  if loop_guard this then
    match loop_body this lastRecord with
    | Break this' => Some this'
    | Continue this' lastRecord' => while_loop fuel this' lastRecord'
    end
  else Some this.
Proof. reflexivity. Qed.

(** An invariant indexed by the number of completed iterations holds at the
    start of every iteration, where the guard holds too. *)
Lemma iterations_invariant (I : nat -> Simulator -> float -> Prop) :
  (forall k s l s' l',
      I k s l -> loop_guard s = true ->
      loop_body s l = Continue s' l' -> I (S k) s' l') ->
  forall fuel k s l i si oi,
    I k s l ->
    nth_error (iterations fuel s l) i = Some (si, oi) ->
    exists li, I (k + i)%nat si li /\ loop_guard si = true /\
               oi = loop_body si li /\ (i < fuel)%nat.
Proof.
  intros Hstep. induction fuel as [|fuel IH]; intros k s l i si oi HI Hnth.
  - destruct i; discriminate Hnth.
  - rewrite iterations_cons in Hnth.
    destruct (loop_guard s) eqn:Hguard; [|destruct i; discriminate Hnth].
    destruct i as [|i]; cbn [nth_error] in Hnth.
    + injection Hnth as <- <-. exists l. rewrite Nat.add_0_r.
      repeat split; auto. lia.
    + destruct (loop_body s l) as [s' l'|s'] eqn:Hbody;
        [|destruct i; discriminate Hnth].
      destruct (IH (S k) s' l' i si oi (Hstep _ _ _ _ _ HI Hguard Hbody) Hnth)
        as (li & HIi & Hg & Ho & Hlt).
      exists li. replace (k + S i)%nat with (S k + i)%nat by lia.
      repeat split; auto. lia.
Qed.

(** After a [Continue] the trace goes on from the state it carries; after a
    [Break] it stops. *)
Lemma iterations_suffix (fuel : nat) (s : Simulator) (l : float) (i : nat)
    (si : Simulator) (oi : Outcome) :
  nth_error (iterations fuel s l) i = Some (si, oi) ->
  match oi with
  | Break _ => nth_error (iterations fuel s l) (S i) = None
  | Continue s' l' =>
      exists fuel', forall j,
        nth_error (iterations fuel s l) (S i + j) =
        nth_error (iterations fuel' s' l') j
  end.
Proof.
  revert s l i. induction fuel as [|fuel IH]; intros s l i Hnth.
  - destruct i; discriminate Hnth.
  - rewrite iterations_cons in Hnth |- *.
    destruct (loop_guard s) eqn:Hguard; [|destruct i; discriminate Hnth].
    destruct i as [|i]; cbn [nth_error] in Hnth.
    + injection Hnth as <- <-.
      destruct (loop_body s l) as [s' l'|s'] eqn:Hbody.
      * exists fuel. intros j. reflexivity.
      * reflexivity.
    + destruct (loop_body s l) as [s' l'|s'] eqn:Hbody;
        [|destruct i; discriminate Hnth].
      specialize (IH s' l' i Hnth). destruct oi as [s'' l''|s''].
      * destruct IH as [fuel' IH]. exists fuel'. intros j. apply IH.
      * exact IH.
Qed.

(** Each iteration starts in the state the one before it continued with. *)
Lemma iterations_chain (fuel : nat) (s : Simulator) (l : float) (i : nat)
    (si sj : Simulator) (oi oj : Outcome) :
  nth_error (iterations fuel s l) i = Some (si, oi) ->
  nth_error (iterations fuel s l) (S i) = Some (sj, oj) ->
  sj = outcome_state oi.
Proof.
  intros Hi Hj. pose proof (iterations_suffix _ _ _ _ _ _ Hi) as Hsuffix.
  destruct oi as [s' l'|s']; [|congruence].
  destruct Hsuffix as [fuel' Hsuffix]. specialize (Hsuffix 0%nat).
  rewrite Nat.add_0_r, Hj in Hsuffix.
  destruct fuel' as [|fuel']; [discriminate Hsuffix|].
  rewrite iterations_cons in Hsuffix.
  destruct (loop_guard s'); [|discriminate Hsuffix].
  cbn [nth_error] in Hsuffix. now injection Hsuffix as -> _.
Qed.

Lemma last_cons_default {A : Type} (a d : A) (l : list A) :
  last (a :: l) d = last l a.
Proof.
  revert a d. induction l as [|b l IH]; intros a d; [reflexivity|].
  change (last (a :: b :: l) d) with (last (b :: l) d).
  now rewrite !IH.
Qed.

(** When the loop exits, it exits in the state its last iteration produced. *)
Lemma while_loop_final (fuel : nat) (s : Simulator) (l : float)
    (s_end : Simulator) :
  while_loop fuel s l = Some s_end ->
  s_end = final_state s (iterations fuel s l).
Proof.
  revert s l. induction fuel as [|fuel IH]; intros s l Hloop;
    [discriminate Hloop|].
  rewrite while_loop_cons in Hloop. rewrite iterations_cons.
  destruct (loop_guard s); [|now injection Hloop as <-].
  unfold final_state. cbn [map snd]. rewrite last_cons_default.
  destruct (loop_body s l) as [s' l'|s'].
  - apply IH in Hloop. exact Hloop.
  - now injection Hloop as <-.
Qed.

(** An invariant of the loop, with what it yields at the exit. *)
Lemma while_loop_invariant (I : nat -> Simulator -> float -> Prop)
    (Q : Simulator -> Prop) :
  (forall k s l,
      I k s l -> loop_guard s = true ->
      match loop_body s l with
      | Continue s' l' => I (S k) s' l'
      | Break s' => Q s'
      end) ->
  (forall k s l, I k s l -> loop_guard s = false -> Q s) ->
  forall fuel k s l s_end,
    I k s l -> while_loop fuel s l = Some s_end -> Q s_end.
Proof.
  intros Hstep Hexit. induction fuel as [|fuel IH];
    intros k s l s_end HI Hloop; [discriminate Hloop|].
  rewrite while_loop_cons in Hloop.
  destruct (loop_guard s) eqn:Hguard.
  - specialize (Hstep k s l HI Hguard).
    destruct (loop_body s l) as [s' l'|s'].
    + exact (IH (S k) s' l' s_end Hstep Hloop).
    + now injection Hloop as <-.
  - injection Hloop as <-. exact (Hexit k s l HI Hguard).
Qed.

(** *** The clock *)

Lemma clock_all_spec (check : float -> bool) (n k : nat) :
  clock_all check n (time_at k) = true ->
  forall j, (j < n)%nat -> check (time_at (k + j)) = true.
Proof.
  revert k. induction n as [|n IH]; intros k Hall j Hj; [lia|].
  cbn [clock_all] in Hall. apply andb_prop in Hall as [Hhere Hrest].
  destruct j as [|j].
  - now rewrite Nat.add_0_r.
  - replace (k + S j)%nat with (S k + j)%nat by lia.
    apply (IH (S k)); [exact Hrest|lia].
Qed.

Lemma final_time_eq : time_at last_tick = final_time.
Proof. vm_compute. reflexivity. Qed.

(** After [last_tick] additions of [dt] the clock is not below 100. *)
Lemma clock_ends : (time_at last_tick <? 100) = false.
Proof. rewrite final_time_eq. reflexivity. Qed.

(** Nor is it below any horizon the driver can have shrunk to. *)
Lemma shrunk_ends (j : nat) :
  (j < last_tick)%nat ->
  (time_at last_tick <? shrunk_horizon 100 (time_at j)) = false.
Proof.
  intros Hj. rewrite final_time_eq.
  apply negb_true_iff.
  apply (clock_all_spec
           (fun T => negb (final_time <? shrunk_horizon 100 T)) last_tick 0);
    [vm_compute; reflexivity | exact Hj].
Qed.

(** On the clock of a run, the horizon the driver computes is
    [Math.min(100, T + 10)]. *)
Lemma shrunk_is_min (j : nat) :
  (j < last_tick)%nat ->
  shrunk_horizon 100 (time_at j) = Math_min 100 (time_at j + 10).
Proof.
  intros Hj. apply Leibniz.eqb_spec.
  apply (clock_all_spec
           (fun T => Leibniz.eqb (shrunk_horizon 100 T) (Math_min 100 (T + 10)))
           last_tick 0);
    [vm_compute; reflexivity | exact Hj].
Qed.

(** *** The horizon invariant and termination *)

Lemma horizon_inv_init (p : SimulationParameters) :
  horizon_inv 0 (constructor p).
Proof. repeat split. unfold last_tick. lia. Qed.

Lemma horizon_inv_guard (k : nat) (s : Simulator) :
  horizon_inv k s -> loop_guard s = true -> (k < last_tick)%nat.
Proof.
  intros (Hk & Htime & Hmax) Hguard.
  destruct (Nat.eq_dec k last_tick) as [->|]; [exfalso|lia].
  unfold loop_guard in Hguard. rewrite Htime in Hguard.
  destruct (equilibriumReached s).
  - destruct Hmax as (j & Hj & Hmax). rewrite Hmax, shrunk_ends in Hguard;
      [discriminate|exact Hj].
  - rewrite Hmax, clock_ends in Hguard. discriminate.
Qed.

Lemma horizon_inv_step (k : nat) (s s' : Simulator) (l l' : float) :
  horizon_inv k s -> loop_guard s = true ->
  loop_body s l = Continue s' l' -> horizon_inv (S k) s'.
Proof.
  intros Hinv Hguard Hbody.
  pose proof (horizon_inv_guard _ _ Hinv Hguard) as Hlt.
  destruct Hinv as (Hk & Htime & Hmax).
  rewrite loop_body_cases in Hbody. cbv zeta in Hbody.
  destruct (below_one _); [discriminate|].
  injection Hbody as <- _.
  destruct (store_history_frame s l) as (_ & Ht1 & Hm1 & _ & _ & He1 & _).
  remember (integrate (fst (store_history s l))) as s2 eqn:Es2.
  assert (Ht2 : currentTime s2 = time_at k) by (subst s2; cbn; congruence).
  assert (Hm2 : maxTime s2 = maxTime s) by (subst s2; cbn; congruence).
  assert (He2 : equilibriumReached s2 = equilibriumReached s)
    by (subst s2; cbn; congruence).
  clear Es2. split; [lia|].
  destruct (equilibrium_phase_cases s2) as [H|(Hnot & _ & H)]; rewrite H;
    cbn [currentTime maxTime equilibriumReached set_currentTime set_maxTime
         set_equilibrium].
  - rewrite Ht2, He2, Hm2. split; [reflexivity|].
    destruct (equilibriumReached s); [|exact Hmax].
    destruct Hmax as (j & Hj & Hmax). exists j. split; [lia|exact Hmax].
  - rewrite Ht2. split; [reflexivity|].
    exists k. split; [lia|].
    rewrite Hm2. rewrite He2 in Hnot. rewrite Hnot in Hmax. now rewrite Hmax.
Qed.

Lemma while_loop_terminates_from (n k : nat) (s : Simulator) (l : float) :
  (k + n = last_tick)%nat -> horizon_inv k s ->
  exists s_end, while_loop (S n) s l = Some s_end.
Proof.
  revert k s l. induction n as [|n IH]; intros k s l Hkn Hinv;
    rewrite while_loop_cons.
  - destruct (loop_guard s) eqn:Hguard; [|now eexists].
    pose proof (horizon_inv_guard _ _ Hinv Hguard). lia.
  - destruct (loop_guard s) eqn:Hguard; [|now eexists].
    destruct (loop_body s l) as [s' l'|s'] eqn:Hbody; [|now eexists].
    apply (IH (S k)); [lia|].
    exact (horizon_inv_step _ _ _ _ _ Hinv Hguard Hbody).
Qed.

(** The loop of a fresh simulator exits within the fuel of [simulate]:
    every run returns its results. *)
Lemma simulate_returns (p : SimulationParameters) :
  exists s_end,
    while_loop simulate_steps (constructor p) 0 = Some s_end /\
    simulate (constructor p) = Some (finish s_end).
Proof.
  destruct (while_loop_terminates_from last_tick 0 (constructor p) 0 eq_refl
              (horizon_inv_init p)) as [s_end Hloop].
  exists s_end. split; [exact Hloop|].
  unfold simulate, simulate_fuel.
  change simulate_steps with (S last_tick). now rewrite Hloop.
Qed.

(** *** One iteration *)

(** The simulator after the cadence record and the integration step of an
    iteration differs from the one at its start in the populations and,
    when a record was stored, the history. *)
Lemma integrate_store_frame (s : Simulator) (l : float) :
  let s2 := integrate (fst (store_history s l)) in
  params s2 = params s /\ currentTime s2 = currentTime s /\
  maxTime s2 = maxTime s /\
  equilibriumReached s2 = equilibriumReached s /\
  equilibriumPoint s2 = equilibriumPoint s /\
  extinctionOccurred s2 = extinctionOccurred s /\
  history s2 = history (fst (store_history s l)).
Proof.
  destruct (store_history_frame s l) as (? & ? & ? & _ & _ & ? & ? & ?).
  cbn. repeat split; assumption.
Qed.

(** How an iteration ends: with a [break] when a population is below 1 after
    the step; otherwise with the clock advanced, and either nothing else
    changed or equilibrium latched and the horizon shrunk. *)
Lemma iteration_shape (s : Simulator) (l : float) :
  let s2 := integrate (fst (store_history s l)) in
  (below_one s2 = true /\ loop_body s l = Break (set_extinctionOccurred s2))
  \/
  (below_one s2 = false /\
   exists s4,
     loop_body s l =
       Continue (set_currentTime s4 (currentTime s + dt))
                (snd (store_history s l)) /\
     (s4 = s2 \/
      equilibriumReached s = false /\
      (equilibriumBufferSize <= length (history s2))%nat /\
      s4 = set_maxTime (set_equilibrium s2 (window_point s2))
                       (shrunk_horizon (maxTime s) (currentTime s)))).
Proof.
  intros s2. pose proof (loop_body_cases s l) as Hbody. cbv zeta in Hbody.
  fold s2 in Hbody.
  destruct (integrate_store_frame s l) as (_ & Ht & Hm & He & _).
  fold s2 in Ht, Hm, He.
  destruct (below_one s2); [left; now split|right; split; [reflexivity|]].
  exists (equilibrium_phase s2).
  destruct (equilibrium_phase_frame s2) as (_ & Ht4 & _).
  rewrite Ht4, Ht in Hbody. split; [exact Hbody|].
  destruct (equilibrium_phase_cases s2) as [H|(Hnot & Hlen & H)].
  - now left.
  - right. rewrite Hm, Ht, He in *. repeat split; assumption.
Qed.

(** Once latched, equilibrium stays latched, and neither the point nor the
    horizon changes. *)
Lemma latched_stays (s : Simulator) (l : float) :
  equilibriumReached s = true ->
  let s' := outcome_state (loop_body s l) in
  equilibriumReached s' = true /\
  equilibriumPoint s' = equilibriumPoint s /\ maxTime s' = maxTime s.
Proof.
  intros Hreached.
  destruct (integrate_store_frame s l) as (_ & _ & Hm & He & Hp & _).
  destruct (iteration_shape s l)
    as [[_ Hbody]|(_ & s4 & Hbody & [->|(Hnot & _)])];
    try congruence; rewrite Hbody;
    cbn [outcome_state equilibriumReached equilibriumPoint maxTime
         set_extinctionOccurred set_currentTime];
    repeat split; congruence.
Qed.

Lemma latched_step (M : float) (s s' : Simulator) (l l' : float) :
  equilibriumReached s = true /\ maxTime s = M ->
  loop_body s l = Continue s' l' ->
  equilibriumReached s' = true /\ maxTime s' = M.
Proof.
  intros [Hreached Hmax] Hbody.
  destruct (latched_stays s l Hreached) as (H1 & _ & H2).
  rewrite Hbody in H1, H2. cbn [outcome_state] in H1, H2.
  split; congruence.
Qed.

(** *** Every run returns with a trace *)

(** At time 0 the elapsed-time test [0 - 0 >= 0.1] fails. *)
Lemma fresh_store_history (p : SimulationParameters) :
  store_history (constructor p) 0 = (constructor p, 0).
Proof. reflexivity. Qed.

(** The trace of a run, the state at the loop's exit and the results. *)
Lemma run_trace (p : SimulationParameters) :
  let its := iterations simulate_steps (constructor p) 0 in
  exists o rest,
    its = (constructor p, o) :: rest /\
    simulate (constructor p) = Some (finish (final_state (constructor p) its))
    /\ final_state (constructor p) its
       = outcome_state (snd (last its (constructor p, o))).
Proof.
  intros its. destruct (simulate_returns p) as (s_end & Hloop & Hsim).
  apply while_loop_final in Hloop. fold its in Hloop. subst s_end.
  assert (Hits : its = (constructor p, loop_body (constructor p) 0) ::
                       match loop_body (constructor p) 0 with
                       | Break _ => []
                       | Continue s' l' => iterations last_tick s' l'
                       end) by reflexivity.
  exists (loop_body (constructor p) 0). eexists.
  split; [exact Hits|]. split; [exact Hsim|].
  unfold final_state. rewrite Hits at 1 2. cbn [map].
  rewrite last_cons_default.
  rewrite (last_cons_default _ (constructor p, loop_body (constructor p) 0)).
  set (tail := match loop_body (constructor p) 0 with
               | Break _ => []
               | Continue s' l' => iterations last_tick s' l'
               end).
  change (outcome_state (snd (constructor p, loop_body (constructor p) 0)))
    with ((fun it : Simulator * Outcome => outcome_state (snd it))
            (constructor p, loop_body (constructor p) 0)).
  generalize (constructor p, loop_body (constructor p) 0).
  induction tail as [|it tail IH]; intros it0; [reflexivity|].
  cbn [map]. rewrite !last_cons_default. apply IH.
Qed.

Lemma nth_error_last {A : Type} (l : list A) (i : nat) (a d : A) :
  nth_error l i = Some a -> nth_error l (S i) = None -> last l d = a.
Proof.
  revert i d. induction l as [|b l IH]; intros i d Hi Hnone.
  - destruct i; discriminate Hi.
  - rewrite last_cons_default. destruct i as [|i]; cbn in Hi, Hnone.
    + injection Hi as ->. destruct l; [reflexivity|discriminate Hnone].
    + exact (IH i b Hi Hnone).
Qed.

Lemma last_nth_error {A : Type} (a d : A) (l : list A) :
  exists i, nth_error (a :: l) i = Some (last (a :: l) d).
Proof.
  revert a d. induction l as [|b l IH]; intros a d.
  - now exists 0%nat.
  - destruct (IH b a) as [i Hi]. exists (S i).
    rewrite last_cons_default. exact Hi.
Qed.

Lemma timeSteps_finish (s : Simulator) :
  timeSteps (finish s) = history s ++ [record s].
Proof. reflexivity. Qed.

(** *** Extinction *)

Lemma extinction_flag_step (s s' : Simulator) (l l' : float) :
  extinctionOccurred s = false -> loop_body s l = Continue s' l' ->
  extinctionOccurred s' = false.
Proof.
  intros Hflag Hbody.
  destruct (integrate_store_frame s l) as (_ & _ & _ & _ & _ & Hx & _).
  destruct (iteration_shape s l)
    as [[_ H]|(_ & s4 & H & [->|(_ & _ & ->)])];
    rewrite H in Hbody; [discriminate| |];
    injection Hbody as <- _; cbn [extinctionOccurred set_currentTime
      set_maxTime set_equilibrium]; congruence.
Qed.

(** C3: in a run, [extinctionOccurred] is false at the start of every
    iteration; an iteration sets it exactly when a population is below 1
    after its integration step, and then it is the last one: the loop is
    left at once, and the records of the run are those present at that
    moment followed by the one final record. *)
Theorem extinction_finality
    (p : SimulationParameters) (i : nat) (s : Simulator) (o : Outcome) :
  let its := iterations simulate_steps (constructor p) 0 in
  nth_error its i = Some (s, o) ->
  extinctionOccurred s = false /\
  extinctionOccurred (outcome_state o) = is_break o /\
  exists l,
    let s1 := fst (store_history s l) in
    let s2 := integrate s1 in
    is_break o = below_one s2 /\
    (is_break o = true ->
     o = Break (set_extinctionOccurred s2) /\
     nth_error its (S i) = None /\
     simulate (constructor p) = Some (finish (outcome_state o)) /\
     timeSteps (finish (outcome_state o))
     = history s1 ++ [record (outcome_state o)]).
Proof.
  intros its Hnth.
  destruct (iterations_invariant
              (fun _ s _ => extinctionOccurred s = false)
              (fun k s l s' l' H _ => extinction_flag_step s s' l l' H)
              simulate_steps 0 (constructor p) 0 i s o eq_refl Hnth)
    as (l & Hflag & _ & Ho & _).
  split; [exact Hflag|].
  destruct (integrate_store_frame s l) as (_ & _ & _ & _ & _ & Hx & Hh).
  destruct (iteration_shape s l) as [[Hlow H]|(Hlow & s4 & H & Hs4)];
    rewrite H in Ho; subst o; cbn [is_break outcome_state].
  - split; [reflexivity|]. exists l. cbv zeta. rewrite Hlow.
    split; [reflexivity|]. intros _.
    pose proof (iterations_suffix _ _ _ _ _ _ Hnth) as Hstop.
    cbv beta iota in Hstop. fold its in Hstop.
    split; [reflexivity|]. split; [exact Hstop|].
    destruct (run_trace p) as (o0 & rest & _ & Hsim & Hfinal).
    fold its in Hsim, Hfinal.
    rewrite (nth_error_last its i _ _ Hnth Hstop) in Hfinal.
    cbn [snd outcome_state] in Hfinal. rewrite Hfinal in Hsim.
    split; [exact Hsim|].
    rewrite timeSteps_finish. cbn [history set_extinctionOccurred].
    now rewrite Hh.
  - split.
    + destruct Hs4 as [->|(_ & _ & ->)];
        cbn [extinctionOccurred set_currentTime set_maxTime set_equilibrium];
        congruence.
    + exists l. cbv zeta. rewrite Hlow. split; [reflexivity|discriminate].
Qed.

(** *** Equilibrium *)

Lemma latch_count (fuel : nat) (s : Simulator) (l : float) :
  (length (filter latches (iterations fuel s l))
   <= if equilibriumReached s then 0 else 1)%nat.
Proof.
  revert s l. induction fuel as [|fuel IH]; intros s l.
  - cbn. destruct (equilibriumReached s); lia.
  - rewrite iterations_cons.
    destruct (loop_guard s); [|cbn; destruct (equilibriumReached s); lia].
    cbn [filter]. unfold latches at 1. cbn [fst snd].
    pose proof (latched_stays s l) as Hstay. cbv zeta in Hstay.
    destruct (loop_body s l) as [s' l'|s'] eqn:Hbody;
      cbn [outcome_state] in *.
    + specialize (IH s' l').
      destruct (equilibriumReached s) eqn:Hs; cbn [negb andb].
      * destruct (Hstay eq_refl) as (Hs' & _). now rewrite Hs' in IH.
      * destruct (equilibriumReached s'); cbn [length]; lia.
    + destruct (equilibriumReached s), (equilibriumReached s'); cbn; lia.
Qed.

Lemma point_unset_step (s s' : Simulator) (l l' : float) :
  (equilibriumReached s = false -> equilibriumPoint s = None) ->
  loop_body s l = Continue s' l' ->
  equilibriumReached s' = false -> equilibriumPoint s' = None.
Proof.
  intros Hunset Hbody.
  destruct (integrate_store_frame s l) as (_ & _ & _ & He & Hp & _).
  destruct (iteration_shape s l)
    as [[_ H]|(_ & s4 & H & [->|(_ & _ & ->)])];
    rewrite H in Hbody; [discriminate| |];
    injection Hbody as <- _; cbn [equilibriumReached equilibriumPoint
      set_currentTime set_maxTime set_equilibrium]; [|discriminate].
  rewrite He, Hp. exact Hunset.
Qed.

Lemma length_slice_last {A : Type} (n : nat) (a : list A) :
  (n <= length a)%nat -> length (slice_last n a) = n.
Proof. intros Hn. unfold slice_last. rewrite length_skipn. lia. Qed.

(** C4: in a run, [equilibriumReached] starts false and goes from false to
    true in at most one iteration; in that iteration [equilibriumPoint],
    unset until then, is assigned the means of prey and predator over the
    window of the last 50 records and the current time; every other
    iteration leaves the flag and the point as they are, each iteration
    starts in the state the previous one ended with, and the results carry the
    flag and the point of the last state. *)
Theorem equilibrium_latch (p : SimulationParameters) :
  let its := iterations simulate_steps (constructor p) 0 in
  equilibriumReached (constructor p) = false /\
  (length (filter latches its) <= 1)%nat /\
  (forall i s o,
      nth_error its i = Some (s, o) ->
      (equilibriumReached s = false -> equilibriumPoint s = None) /\
      if latches (s, o) then
        let h := history (outcome_state o) in
        length (slice_last equilibriumBufferSize h) = 50%nat /\
        equilibriumPoint (outcome_state o)
        = Some {| eq_prey := window_mean preyPopulation h;
                  eq_predator := window_mean predatorPopulation h;
                  timeToReach := currentTime s |}
      else
        equilibriumReached (outcome_state o) = equilibriumReached s /\
        equilibriumPoint (outcome_state o) = equilibriumPoint s) /\
  (forall i s o s' o',
      nth_error its i = Some (s, o) -> nth_error its (S i) = Some (s', o') ->
      s' = outcome_state o) /\
  exists res,
    simulate (constructor p) = Some res /\
    res_equilibriumReached res
    = equilibriumReached (final_state (constructor p) its) /\
    res_equilibriumPoint res
    = equilibriumPoint (final_state (constructor p) its).
Proof.
  intros its. split; [reflexivity|]. split; [exact (latch_count _ _ _)|].
  split; [|split].
  2:{ intros i s o s' o'. apply iterations_chain. }
  2:{ destruct (run_trace p) as (_ & _ & _ & Hsim & _). fold its in Hsim.
      eexists. split; [exact Hsim|]. split; reflexivity. }
  intros i s o Hnth.
  destruct (iterations_invariant
              (fun _ s _ =>
                 equilibriumReached s = false -> equilibriumPoint s = None)
              (fun k s l s' l' H _ => point_unset_step s s' l l' H)
              simulate_steps 0 (constructor p) 0 i s o (fun _ => eq_refl) Hnth)
    as (l & Hunset & _ & Ho & _).
  split; [exact Hunset|].
  destruct (integrate_store_frame s l) as (_ & Ht & _ & He & Hp & _).
  unfold latches. cbn [fst snd].
  destruct (iteration_shape s l)
    as [[_ H]|(_ & s4 & H & [->|(Hnot & Hlen & ->)])];
    rewrite H in Ho; subst o;
    cbn [outcome_state equilibriumReached equilibriumPoint history
         set_extinctionOccurred set_currentTime set_maxTime set_equilibrium].
  - rewrite He. destruct (equilibriumReached s); cbn; auto.
  - rewrite He. destruct (equilibriumReached s); cbn; auto.
  - rewrite Hnot. cbn [negb andb]. cbv zeta. split.
    + now apply length_slice_last.
    + unfold window_point. now rewrite Ht.
Qed.

(** C5: in a run, when equilibrium is detected in the iteration that starts
    at time [T], the horizon becomes [Math.min(H, T + 10)] for the initial
    horizon [H]; it keeps that value, every later iteration starts at a time
    below it, and the run returns. *)
Theorem horizon_shrink
    (p : SimulationParameters) (i : nat) (s : Simulator) (o : Outcome) :
  let its := iterations simulate_steps (constructor p) 0 in
  nth_error its i = Some (s, o) ->
  latches (s, o) = true ->
  let M := Math_min (maxTime (constructor p)) (currentTime s + 10) in
  maxTime s = maxTime (constructor p) /\
  maxTime (outcome_state o) = M /\
  (forall i' s' o',
      (i < i')%nat -> nth_error its i' = Some (s', o') ->
      maxTime s' = M /\ (currentTime s' <? M) = true /\
      maxTime (outcome_state o') = M) /\
  exists res, simulate (constructor p) = Some res.
Proof.
  intros its Hnth Hlatch M.
  destruct (iterations_invariant
              (fun k s _ => horizon_inv k s)
              (fun k s l s' l' H G B => horizon_inv_step k s s' l l' H G B)
              simulate_steps 0 (constructor p) 0 i s o
              (horizon_inv_init p) Hnth)
    as (l & Hinv & Hguard & Ho & _).
  pose proof (horizon_inv_guard _ _ Hinv Hguard) as Hlt.
  destruct Hinv as (_ & Htime & Hmax). cbn [Nat.add] in Htime.
  unfold latches in Hlatch. cbn [fst snd] in Hlatch.
  apply andb_prop in Hlatch as [Hs Ho']. apply negb_true_iff in Hs.
  rewrite Hs in Hmax.
  destruct (integrate_store_frame s l) as (_ & _ & _ & He & _).
  assert (HM : shrunk_horizon (maxTime s) (currentTime s) = M).
  { subst M. rewrite Hmax, Htime. now apply shrunk_is_min. }
  assert (Hshape : o = Continue
            (set_currentTime
               (set_maxTime
                  (set_equilibrium (integrate (fst (store_history s l)))
                     (window_point (integrate (fst (store_history s l)))))
                  M)
               (currentTime s + dt))
            (snd (store_history s l))).
  { destruct (iteration_shape s l)
      as [[_ H]|(_ & s4 & H & [->|(_ & _ & ->)])];
      rewrite H in Ho; subst o;
      cbn [outcome_state equilibriumReached set_extinctionOccurred
           set_currentTime] in Ho'; congruence. }
  split; [exact Hmax|]. split; [now rewrite Hshape|].
  split; [|destruct (simulate_returns p) as (s_end & _ & Hsim); eauto].
  intros i' s' o' Hi' Hnth'.
  pose proof (iterations_suffix _ _ _ _ _ _ Hnth) as Hsuffix.
  rewrite Hshape in Hsuffix. destruct Hsuffix as [fuel' Hsuffix].
  fold its in Hsuffix.
  replace i' with (S i + (i' - S i))%nat in Hnth' by lia.
  rewrite Hsuffix in Hnth'.
  apply (iterations_invariant
           (fun _ s _ => equilibriumReached s = true /\ maxTime s = M)
           (fun _ s l s' l' H _ B => latched_step M s s' l l' H B)
           fuel' 0) in Hnth'; [|split; reflexivity].
  destruct Hnth' as (l'' & (Hs' & Hm') & Hguard' & Ho'' & _).
  split; [exact Hm'|]. split.
  - unfold loop_guard in Hguard'. now rewrite Hm' in Hguard'.
  - subst o'. destruct (latched_stays s' l'' Hs') as (_ & _ & Hkeep).
    congruence.
Qed.

(** *** Recorded populations *)

Lemma rounded_not_negative (v : float) :
  not_negative v = true -> not_negative (Math_round (v * 10) / 10) = true.
Proof.
  intros Hv.
  apply div_not_negative; [reflexivity|].
  apply Math_round_not_negative.
  now apply mul_not_negative.
Qed.

Lemma rungeKutta4Step_not_negative (this : Simulator) (P Q t : float) :
  not_negative (pop_prey (rungeKutta4Step Math_sin this P Q t)) = true /\
  not_negative (pop_predator (rungeKutta4Step Math_sin this P Q t)) = true.
Proof.
  unfold rungeKutta4Step. cbn [pop_prey pop_predator].
  split; apply Math_max_zero_not_negative.
Qed.

Lemma record_ok (s : Simulator) :
  not_negative (preyPop s) = true -> not_negative (predatorPop s) = true ->
  record_not_negative (record s) = true.
Proof.
  intros Hprey Hpredator. unfold record_not_negative.
  cbn [record preyPopulation predatorPopulation].
  now rewrite !rounded_not_negative.
Qed.

Lemma populations_ok_body (s : Simulator) (l : float) :
  forallb record_not_negative (history (fst (store_history s l))) = true ->
  populations_ok (outcome_state (loop_body s l)).
Proof.
  intros Hhistory.
  destruct (integrate_store_frame s l) as (_ & _ & _ & _ & _ & _ & Hh).
  destruct (rungeKutta4Step_not_negative
              (fst (store_history s l))
              (preyPop (fst (store_history s l)))
              (predatorPop (fst (store_history s l)))
              (currentTime (fst (store_history s l)))) as [Hprey Hpredator].
  destruct (iteration_shape s l)
    as [[_ H]|(_ & s4 & H & [->|(_ & _ & ->)])];
    rewrite H; cbn [outcome_state]; repeat split; cbn; assumption.
Qed.

Lemma populations_ok_store (s : Simulator) (l : float) :
  populations_ok s ->
  forallb record_not_negative (history (fst (store_history s l))) = true.
Proof.
  intros (Hprey & Hpredator & Hhistory). rewrite store_history_cases.
  destruct (geb _ _); cbn [fst history set_history]; [|exact Hhistory].
  rewrite forallb_app, Hhistory. cbn. now rewrite record_ok.
Qed.

(** C6, amended: in every run no recorded population is negative: each is
    [>= 0] or NaN; and each integrator step returns [Math.max(0, .)] for both
    populations, which is [>= 0] or NaN. *)
Theorem populations_never_negative (p : SimulationParameters) :
  (exists res,
      simulate (constructor p) = Some res /\
      forallb record_not_negative (timeSteps res) = true) /\
  (forall (this : Simulator) (P Q t : float),
      let step := rungeKutta4Step Math_sin this P Q t in
      not_negative (pop_prey step) = true /\
      not_negative (pop_predator step) = true).
Proof.
  split; [|intros; apply rungeKutta4Step_not_negative].
  destruct (simulate_returns p) as (s_end & Hloop & Hsim).
  exists (finish s_end). split; [exact Hsim|].
  assert (Hend : populations_ok s_end).
  { revert Hloop.
    apply (while_loop_invariant
             (fun k s l =>
                match k with
                | O => s = constructor p /\ l = 0
                | S _ => populations_ok s
                end)
             populations_ok) with (k := 0%nat); [| |now split].
    - intros k s l HI _.
      assert (Hok : populations_ok (outcome_state (loop_body s l))).
      { apply populations_ok_body. destruct k as [|k].
        - destruct HI as [-> ->]. reflexivity.
        - now apply populations_ok_store. }
      now destruct (loop_body s l).
    - intros [|k] s l HI Hguard; [|exact HI].
      destruct HI as [-> _]. discriminate Hguard. }
  destruct Hend as (Hprey & Hpredator & Hhistory).
  rewrite timeSteps_finish, forallb_app, Hhistory. cbn.
  now rewrite record_ok.
Qed.

(** *** The first record *)

(** The records in the history at the exit of the loop were there at its
    entry, or are the record of the entry state when the cadence test held
    there, or are the record of the state an iteration continued with. *)
Lemma history_provenance (fuel : nat) (s : Simulator) (l : float)
    (s_end : Simulator) (r : TimeStep) :
  while_loop fuel s l = Some s_end -> In r (history s_end) ->
  In r (history s) \/
  (geb (currentTime s - l) recordInterval = true /\ r = record s) \/
  exists i si oi,
    nth_error (iterations fuel s l) i = Some (si, oi) /\
    r = record (outcome_state oi).
Proof.
  revert s l. induction fuel as [|fuel IH]; intros s l Hloop Hin;
    [discriminate Hloop|].
  rewrite while_loop_cons in Hloop. rewrite iterations_cons.
  destruct (loop_guard s); [|injection Hloop as <-; now left].
  destruct (integrate_store_frame s l) as (_ & _ & _ & _ & _ & _ & Hh).
  assert (Hstored : forall r,
             In r (history (fst (store_history s l))) ->
             In r (history s) \/
             geb (currentTime s - l) recordInterval = true /\ r = record s).
  { intros r0. rewrite store_history_cases.
    destruct (geb _ _); cbn [fst history set_history]; [|now left].
    rewrite in_app_iff. cbn. intros [H|[<-|[]]]; auto. }
  destruct (iteration_shape s l) as [[_ H]|(_ & s4 & H & Hs4)];
    rewrite H in Hloop |- *.
  - injection Hloop as <-. cbn [history set_extinctionOccurred] in Hin.
    rewrite Hh in Hin. destruct (Hstored r Hin) as [?|?]; auto.
  - destruct (IH _ _ Hloop Hin) as [Hold|[[_ Hhere]|(i & si & oi & Hi & Hr)]].
    + assert (Hin1 : In r (history (fst (store_history s l)))).
      { destruct Hs4 as [->|(_ & _ & ->)];
          cbn [history set_currentTime set_maxTime set_equilibrium] in Hold;
          now rewrite Hh in Hold. }
      destruct (Hstored r Hin1) as [?|?]; auto.
    + right. right. exists 0%nat. eexists. eexists.
      split; [reflexivity|exact Hhere].
    + right. right. exists (S i), si, oi. split; [exact Hi|exact Hr].
Qed.

(** C10: the state built by the constructor is never recorded.  At time 0
    the cadence test fails and stores nothing; every run returns a non-empty
    record sequence, ending with the record appended after the loop; and
    every record of the sequence, the first included, is the record of the
    state some iteration of the run produced, that is of a state at least one
    integration step away from the initial one. *)
Theorem initial_state_not_recorded (p : SimulationParameters) :
  let its := iterations simulate_steps (constructor p) 0 in
  store_history (constructor p) 0 = (constructor p, 0) /\
  exists s_end,
    simulate (constructor p) = Some (finish s_end) /\
    timeSteps (finish s_end) = history s_end ++ [record s_end] /\
    timeSteps (finish s_end) <> [] /\
    Forall (fun r => exists i s o l,
                nth_error its i = Some (s, o) /\
                r = record (outcome_state o) /\
                let s2 := integrate (fst (store_history s l)) in
                preyPop (outcome_state o) = preyPop s2 /\
                predatorPop (outcome_state o) = predatorPop s2)
           (timeSteps (finish s_end)).
Proof.
  intros its. split; [apply fresh_store_history|].
  destruct (simulate_returns p) as (s_end & Hloop & Hsim).
  exists s_end. split; [exact Hsim|]. split; [apply timeSteps_finish|].
  split.
  { rewrite timeSteps_finish. intros Hnil.
    apply app_eq_nil in Hnil as [_ Hnil]. discriminate Hnil. }
  assert (Hpops : forall i s o,
             nth_error its i = Some (s, o) ->
             exists l,
               preyPop (outcome_state o)
               = preyPop (integrate (fst (store_history s l))) /\
               predatorPop (outcome_state o)
               = predatorPop (integrate (fst (store_history s l)))).
  { intros i s o Hnth.
    destruct (iterations_invariant (fun _ _ _ => True)
                (fun _ _ _ _ _ _ _ _ => I)
                simulate_steps 0 (constructor p) 0 i s o I Hnth)
      as (l & _ & _ & Ho & _).
    exists l.
    destruct (iteration_shape s l)
      as [[_ H]|(_ & s4 & H & [->|(_ & _ & ->)])];
      rewrite H in Ho; subst o; split; reflexivity. }
  assert (Hfrom : forall i s o r,
             nth_error its i = Some (s, o) -> r = record (outcome_state o) ->
             exists i s o l,
               nth_error its i = Some (s, o) /\
               r = record (outcome_state o) /\
               let s2 := integrate (fst (store_history s l)) in
               preyPop (outcome_state o) = preyPop s2 /\
               predatorPop (outcome_state o) = predatorPop s2).
  { intros i s o r Hnth Hr. destruct (Hpops i s o Hnth) as (l & Hp & Hq).
    exists i, s, o, l. repeat split; assumption. }
  rewrite timeSteps_finish. apply Forall_app. split.
  - apply Forall_forall. intros r Hin.
    destruct (history_provenance _ _ _ _ r Hloop Hin)
      as [[]|[[Hcadence _]|(i & s & o & Hnth & Hr)]].
    + discriminate Hcadence.
    + exact (Hfrom i s o r Hnth Hr).
  - constructor; [|constructor].
    destruct (run_trace p) as (o0 & rest & Hits & _ & Hfinal).
    fold its in Hits, Hfinal.
    apply while_loop_final in Hloop. fold its in Hloop.
    rewrite Hfinal in Hloop.
    assert (Hlast : exists i, nth_error its i
                              = Some (last its (constructor p, o0))).
    { rewrite Hits. apply last_nth_error. }
    destruct Hlast as [i Hi].
    destruct (last its (constructor p, o0)) as [s o] eqn:Hlast.
    cbn [snd] in Hloop. exact (Hfrom i s o _ Hi (f_equal record Hloop)).
Qed.

End Driver.

(** C6, as stated, fails: NaN is not [>= 0], and [Math.max(0, NaN)] is NaN.
    With no carrying capacity ([noCapacity], all fields [>= 0]) the first
    integration step already returns NaN for the prey, and the records of the
    run carry NaN populations. *)
Lemma populations_can_be_nan :
  valid_parameters noCapacity = true /\
  (0 <=? pop_prey (rungeKutta4Step sin_taylor (constructor noCapacity)
                     1000 100 0)) = false /\
  returned_with
    (fun res => negb (forallb (fun r => (0 <=? preyPopulation r)
                                        && (0 <=? predatorPopulation r))
                              (timeSteps res)))
    (simulate sin_taylor pow_square (constructor noCapacity)) = true.
Proof. vm_compute. repeat split. Qed.

(** ** The theorems on example runs *)

(** The run of [predatorDominant] breaks out of its 92nd iteration, the one
    that starts at time 0.91. *)
Lemma extinction_finality_witness :
  let it := iteration_at extinct_run 91 in
  nth_error extinct_run 91 = Some (fst it, snd it) /\
  is_break (snd it) = true /\
  extinctionOccurred (fst it) = false /\
  extinctionOccurred (outcome_state (snd it)) = is_break (snd it) /\
  nth_error extinct_run 92 = None.
Proof.
  intros it.
  assert (Hnth : nth_error extinct_run 91 = Some (fst it, snd it))
    by (vm_compute; reflexivity).
  assert (Hbreak : is_break (snd it) = true) by (vm_compute; reflexivity).
  pose proof (extinction_finality sin_taylor pow_square predatorDominant 91
                (fst it) (snd it) Hnth) as H.
  destruct H as (Hbefore & Hafter & l & _ & Hlast).
  destruct (Hlast Hbreak) as (_ & Hstop & _).
  exact (conj Hnth (conj Hbreak (conj Hbefore (conj Hafter Hstop)))).
Defined.

(** The run of [steady] detects equilibrium in its 1314th iteration, at time
    13.13, and the horizon becomes 23.13. *)
Lemma horizon_shrink_witness :
  let it := iteration_at steady_run 1313 in
  nth_error steady_run 1313 = Some (fst it, snd it) /\
  latches (fst it, snd it) = true /\
  maxTime (fst it) = maxTime (constructor steady) /\
  maxTime (outcome_state (snd it))
  = Math_min (maxTime (constructor steady)) (currentTime (fst it) + 10).
Proof.
  intros it.
  assert (Hnth : nth_error steady_run 1313 = Some (fst it, snd it))
    by (vm_compute; reflexivity).
  assert (Hlatch : latches (fst it, snd it) = true)
    by (vm_compute; reflexivity).
  pose proof (horizon_shrink sin_taylor pow_square steady 1313
                (fst it) (snd it) Hnth Hlatch) as H.
  destruct H as (Hbefore & Hafter & _).
  exact (conj Hnth (conj Hlatch (conj Hbefore Hafter))).
Defined.

Lemma equilibrium_latch_witness :
  let it := iteration_at steady_run 1313 in
  let h := history (outcome_state (snd it)) in
  (length (filter latches steady_run) <= 1)%nat /\
  nth_error steady_run 1313 = Some (fst it, snd it) /\
  latches (fst it, snd it) = true /\
  equilibriumPoint (outcome_state (snd it))
  = Some {| eq_prey := window_mean preyPopulation h;
            eq_predator := window_mean predatorPopulation h;
            timeToReach := currentTime (fst it) |}.
Proof.
  intros it h.
  assert (Hnth : nth_error steady_run 1313 = Some (fst it, snd it))
    by (vm_compute; reflexivity).
  assert (Hlatch : latches (fst it, snd it) = true)
    by (vm_compute; reflexivity).
  pose proof (equilibrium_latch sin_taylor pow_square steady) as H.
  destruct H as (_ & Hcount & Heach & _).
  pose proof (Heach 1313%nat (fst it) (snd it) Hnth) as Hhere.
  destruct Hhere as [_ Hpoint].
  rewrite Hlatch in Hpoint. destruct Hpoint as [_ Hpoint].
  exact (conj Hcount (conj Hnth (conj Hlatch Hpoint))).
Defined.

(** ** More of the engine: the shape of a run *)

Section Coverage.

Variable Math_sin : float -> float.
Variable Math_pow : float -> float -> float.

Local Abbreviation record := (record Math_sin).
Local Abbreviation integrate := (integrate Math_sin).
Local Abbreviation store_history := (store_history Math_sin).
Local Abbreviation loop_body := (loop_body Math_sin Math_pow).
Local Abbreviation while_loop := (while_loop Math_sin Math_pow).
Local Abbreviation iterations := (iterations Math_sin Math_pow).
Local Abbreviation simulate := (simulate Math_sin Math_pow).
Local Abbreviation finish := (finish Math_sin).
Local Abbreviation trajectory := (trajectory Math_sin).
Local Abbreviation run_inv := (run_inv Math_sin).
Local Abbreviation run_end := (run_end Math_sin).
Local Abbreviation level := (calculateResourceLevel Math_sin).

(** *** More of the clock *)

Lemma clock_all_from_zero (check : float -> bool) (n : nat) :
  clock_all check n 0 = true ->
  forall k, (k < n)%nat -> check (time_at k) = true.
Proof. intros Hall k Hk. exact (clock_all_spec check n 0 Hall k Hk). Qed.

Lemma gap_within_spec (n m : nat) (T : float) :
  gap_within n T (time_at m) = true ->
  forall d, (d < n)%nat -> geb (time_at (m + d) - T) recordInterval = false.
Proof.
  revert m. induction n as [|n IH]; intros m Hgap d Hd; [lia|].
  cbn [gap_within] in Hgap. apply andb_prop in Hgap as [Hhere Hrest].
  destruct d as [|d].
  - rewrite Nat.add_0_r. now apply negb_true_iff.
  - replace (m + S d)%nat with (S m + d)%nat by lia.
    apply (IH (S m)); [exact Hrest|lia].
Qed.

(** Two clock values that pass the cadence test are at least ten ticks
    apart. *)
Lemma gap_at_least (j k : nat) :
  (j <= k <= last_tick)%nat ->
  geb (time_at k - time_at j) recordInterval = true -> (j + 10 <= k)%nat.
Proof.
  intros Hjk Hgap.
  destruct (Nat.lt_ge_cases k (j + 10)) as [Hlt|]; [exfalso|assumption].
  assert (Hnone : geb (time_at (j + (k - j)) - time_at j) recordInterval
                  = false).
  { apply (gap_within_spec 10); [|lia].
    apply (clock_all_from_zero (fun T => gap_within 10 T T) (S last_tick));
      [vm_compute; reflexivity|lia]. }
  replace (j + (k - j))%nat with k in Hnone by lia. congruence.
Qed.

Lemma clock_below (k : nat) :
  (k < last_tick)%nat -> (time_at k <? 100) = true.
Proof.
  apply (clock_all_from_zero (fun T => T <? 100) last_tick).
  vm_compute. reflexivity.
Qed.

Lemma clock_le_final (k : nat) :
  (k <= last_tick)%nat -> (time_at k <=? final_time) = true.
Proof.
  intros Hk.
  apply (clock_all_from_zero (fun T => T <=? final_time) (S last_tick));
    [vm_compute; reflexivity|lia].
Qed.

Lemma clock_after_settling (k : nat) :
  (500 <= k <= last_tick)%nat -> (4.99 <=? time_at k) = true.
Proof.
  intros Hk.
  assert (Hall : forall i, (i < last_tick - 499)%nat ->
                           (4.99 <=? time_at (500 + i)) = true).
  { apply (clock_all_spec (fun T => 4.99 <=? T) (last_tick - 499) 500).
    vm_compute. reflexivity. }
  replace k with (500 + (k - 500))%nat by lia. apply Hall. lia.
Qed.

(** The streaming host's test [currentTime >= maxTime] on the clock. *)
Lemma clock_not_finished (k : nat) :
  (k < last_tick)%nat -> geb (time_at k) 100 = false.
Proof.
  intros Hk. apply negb_true_iff.
  apply (clock_all_from_zero (fun T => negb (geb T 100)) last_tick);
    [vm_compute; reflexivity|exact Hk].
Qed.

Lemma clock_finished : geb (time_at last_tick) 100 = true.
Proof. rewrite final_time_eq. reflexivity. Qed.

(** *** The invariant of a run *)

Lemma calculateResourceLevel_params (a b : Simulator) (t : float) :
  params a = params b -> level a t = level b t.
Proof. intros H. unfold calculateResourceLevel. now rewrite H. Qed.

Lemma rungeKutta4Step_params (a b : Simulator) (P Q t : float) :
  params a = params b ->
  rungeKutta4Step Math_sin a P Q t = rungeKutta4Step Math_sin b P Q t.
Proof.
  intros H. unfold rungeKutta4Step, calculateDerivatives.
  rewrite (calculateResourceLevel_params a b t H), H. reflexivity.
Qed.

Lemma below_one_pops (s : Simulator) (q : Populations) :
  preyPop s = pop_prey q -> predatorPop s = pop_predator q ->
  below_one s = pops_below_one q.
Proof. intros Hp Hq. unfold below_one, pops_below_one. now rewrite Hp, Hq. Qed.

Lemma taken_at_tick_later (f : float -> float) (k k' : nat)
    (h : list TimeStep) :
  (k <= k')%nat -> Forall (taken_at_tick f k) h ->
  Forall (taken_at_tick f k') h.
Proof.
  intros Hk. apply Forall_impl. intros r (j & Hj & Hr).
  exists j. split; [lia|exact Hr].
Qed.

Lemma run_inv_init (p : SimulationParameters) :
  run_inv p 0 (constructor p) 0.
Proof.
  unfold run_inv. cbn.
  repeat split; try (unfold last_tick; lia); try lia.
  - exists 0%nat. repeat split; lia.
  - constructor.
Qed.

Lemma run_inv_guard (p : SimulationParameters) (k : nat) (s : Simulator)
    (l : float) :
  run_inv p k s l -> loop_guard s = true -> (k < last_tick)%nat.
Proof.
  intros (Hk & _ & Htime & _ & _ & _ & _ & _ & _ & Heq) Hguard.
  destruct (Nat.eq_dec k last_tick) as [->|]; [exfalso|lia].
  unfold loop_guard in Hguard. rewrite Htime in Hguard.
  destruct (equilibriumReached s).
  - destruct Heq as (j & pt & Hj & _ & _ & Hmax).
    rewrite Hmax, <- shrunk_is_min, shrunk_ends in Hguard;
      [discriminate|lia|lia].
  - destruct Heq as [_ Hmax]. rewrite Hmax, clock_ends in Hguard.
    discriminate.
Qed.

(** The simulator after the cadence record and the integration step of
    iteration [k]. *)
Lemma run_inv_integrated (p : SimulationParameters) (k : nat) (s : Simulator)
    (l : float) :
  run_inv p k s l ->
  let s2 := integrate (fst (store_history s l)) in
  params s2 = p /\ currentTime s2 = time_at k /\ maxTime s2 = maxTime s /\
  equilibriumReached s2 = equilibriumReached s /\
  equilibriumPoint s2 = equilibriumPoint s /\
  extinctionOccurred s2 = false /\
  preyPop s2 = pop_prey (trajectory p (S k)) /\
  predatorPop s2 = pop_predator (trajectory p (S k)) /\
  (exists j, (j <= k)%nat /\ snd (store_history s l) = time_at j /\
             (10 * length (history s2) <= j)%nat) /\
  Forall (taken_at_tick (level (constructor p)) k) (history s2).
Proof.
  intros (Hk & Hparams & Htime & Hprey & Hpredator & Hext & _
          & (j & Hj & Hl & Hlen) & Htaken & _).
  destruct (integrate_store_frame Math_sin s l)
    as (Hp2 & Ht2 & Hm2 & He2 & Hpt2 & Hx2 & Hh2).
  destruct (store_history_frame Math_sin s l)
    as (Hp1 & Ht1 & _ & Hprey1 & Hpredator1 & _).
  cbv zeta. rewrite Hh2.
  repeat split; try congruence.
  - cbn [integrate preyPop set_pops trajectory].
    rewrite Hprey1, Hpredator1, Ht1, Hprey, Hpredator, Htime.
    f_equal. apply rungeKutta4Step_params.
    cbn [params constructor]. congruence.
  - cbn [integrate predatorPop set_pops trajectory].
    rewrite Hprey1, Hpredator1, Ht1, Hprey, Hpredator, Htime.
    f_equal. apply rungeKutta4Step_params.
    cbn [params constructor]. congruence.
  - rewrite store_history_cases.
    destruct (geb (currentTime s - l) recordInterval) eqn:Hgap;
      cbn [fst snd history set_history].
    + rewrite Htime, Hl in Hgap. apply gap_at_least in Hgap; [|lia].
      exists k. repeat split; [lia|exact Htime|].
      rewrite length_app. cbn [length]. lia.
    + exists j. repeat split; assumption.
  - rewrite store_history_cases.
    destruct (geb (currentTime s - l) recordInterval);
      cbn [fst history set_history]; [|exact Htaken].
    apply Forall_app. split; [exact Htaken|].
    constructor; [|constructor].
    exists k. split; [lia|].
    cbn [record time resourceLevel]. rewrite Htime.
    split; [reflexivity|].
    apply calculateResourceLevel_params. exact Hparams.
Qed.

Lemma no_extinction_so_far (p : SimulationParameters) (k : nat) :
  (forall j, (1 <= j <= k)%nat -> pops_below_one (trajectory p j) = false) ->
  pops_below_one (trajectory p (S k)) = false ->
  forall j, (1 <= j <= S k)%nat -> pops_below_one (trajectory p j) = false.
Proof.
  intros Hbefore Hnow j Hj.
  destruct (Nat.eq_dec j (S k)) as [->|]; [exact Hnow|].
  apply Hbefore. lia.
Qed.

Lemma run_inv_step (p : SimulationParameters) (k : nat) (s s' : Simulator)
    (l l' : float) :
  run_inv p k s l -> loop_guard s = true ->
  loop_body s l = Continue s' l' -> run_inv p (S k) s' l'.
Proof.
  intros Hinv Hguard Hbody.
  pose proof (run_inv_guard _ _ _ _ Hinv Hguard) as Hlt.
  pose proof (run_inv_integrated _ _ _ _ Hinv) as Hs2. cbv zeta in Hs2.
  destruct Hs2 as (Hp2 & Ht2 & Hm2 & He2 & Hpt2 & Hx2 & Hprey2 & Hpredator2
                   & (j & Hj & Hl & Hlen) & Htaken).
  destruct Hinv as (_ & _ & Htime & _ & _ & _ & Hnone & _ & _ & Heq).
  pose proof (below_one_pops _ _ Hprey2 Hpredator2) as Hlow.
  apply (taken_at_tick_later _ k (S k)) in Htaken; [|lia].
  destruct (iteration_shape Math_sin Math_pow s l)
    as [[_ H]|(Hnot & s4 & H & Hs4)];
    rewrite H in Hbody; [discriminate|].
  injection Hbody as <- <-. rewrite Hlow in Hnot.
  pose proof (no_extinction_so_far p k Hnone Hnot) as Hnone'.
  unfold run_inv.
  destruct Hs4 as [->|(Hunreached & Hwindow & ->)];
    cbn [params history currentTime maxTime preyPop predatorPop
         equilibriumReached equilibriumPoint extinctionOccurred
         set_currentTime set_maxTime set_equilibrium time_at].
  - rewrite He2, Hpt2, Hm2, Htime.
    repeat split; try assumption; try lia.
    + exists j. repeat split; try assumption. lia.
    + destruct (equilibriumReached s); [|exact Heq].
      destruct Heq as (i & pt & Hi & Hrest). exists i, pt.
      split; [lia|exact Hrest].
  - rewrite Htime.
    repeat split; try assumption; try lia.
    + exists j. repeat split; try assumption. lia.
    + rewrite Hunreached in Heq. destruct Heq as [_ Hmax].
      exists k. eexists. split; [|split; [reflexivity|]].
      * unfold equilibriumBufferSize in Hwindow. lia.
      * cbn [timeToReach window_point]. split; [exact Ht2|].
        rewrite Hmax. now apply shrunk_is_min.
Qed.

Lemma run_inv_break (p : SimulationParameters) (k : nat) (s s' : Simulator)
    (l : float) :
  run_inv p k s l -> loop_guard s = true ->
  loop_body s l = Break s' -> run_end p k s'.
Proof.
  intros Hinv Hguard Hbody.
  pose proof (run_inv_integrated _ _ _ _ Hinv) as Hs2. cbv zeta in Hs2.
  destruct Hs2 as (Hp2 & Ht2 & Hm2 & He2 & Hpt2 & Hx2 & Hprey2 & Hpredator2
                   & (j & Hj & Hl & Hlen) & Htaken).
  destruct Hinv as (Hk & _ & Htime & _ & _ & _ & _ & _ & _ & Heq).
  destruct (iteration_shape Math_sin Math_pow s l)
    as [[Hlow H]|(_ & s4 & H & _)];
    rewrite H in Hbody; [|discriminate].
  injection Hbody as <-. unfold run_end.
  assert (Hguard' : loop_guard
            (set_extinctionOccurred (integrate (fst (store_history s l))))
          = true).
  { unfold loop_guard in *.
    cbn [currentTime maxTime set_extinctionOccurred]. congruence. }
  assert (Hlow' : below_one
            (set_extinctionOccurred (integrate (fst (store_history s l))))
          = true) by exact Hlow.
  rewrite Hguard', Hlow'.
  cbn [params history currentTime maxTime preyPop predatorPop
       equilibriumReached equilibriumPoint extinctionOccurred
       set_extinctionOccurred].
  rewrite He2, Hpt2, Hm2.
  repeat split; try assumption; try lia.
Qed.

Lemma run_inv_exit (p : SimulationParameters) (k : nat) (s : Simulator)
    (l : float) :
  run_inv p k s l -> loop_guard s = false -> run_end p k s.
Proof.
  intros (Hk & Hparams & Htime & Hprey & Hpredator & Hext & Hnone
          & (j & Hj & _ & Hlen) & Htaken & Heq) Hguard.
  assert (Hpos : (1 <= k)%nat).
  { destruct k as [|k]; [exfalso|lia].
    unfold loop_guard in Hguard. rewrite Htime in Hguard.
    destruct (equilibriumReached s).
    - destruct Heq as (i & _ & Hi & _). lia.
    - destruct Heq as [_ Hmax]. rewrite Hmax in Hguard. discriminate. }
  unfold run_end. rewrite Hext, Hguard.
  rewrite (below_one_pops _ _ Hprey Hpredator), (Hnone k) by lia.
  repeat split; try assumption; try lia.
Qed.

(** Every run returns, in a state the invariant describes. *)
Lemma run_ends (p : SimulationParameters) :
  exists k s_end,
    simulate (constructor p) = Some (finish s_end) /\ run_end p k s_end.
Proof.
  destruct (simulate_returns Math_sin Math_pow p) as (s_end & Hloop & Hsim).
  assert (Hend : exists k, run_end p k s_end).
  { revert Hloop.
    apply (while_loop_invariant Math_sin Math_pow (run_inv p)
             (fun s => exists k, run_end p k s)) with (k := 0%nat);
      [| |apply run_inv_init].
    - intros k s l Hinv Hguard.
      destruct (loop_body s l) as [s' l'|s'] eqn:Hbody.
      + exact (run_inv_step _ _ _ _ _ _ Hinv Hguard Hbody).
      + exists k. exact (run_inv_break _ _ _ _ _ Hinv Hguard Hbody).
    - intros k s l Hinv Hguard. exists k.
      exact (run_inv_exit _ _ _ _ Hinv Hguard). }
  destruct Hend as [k Hend]. exists k, s_end. exact (conj Hsim Hend).
Qed.

(** *** What the results of a run say *)

Lemma last_tick_value : last_tick = (10 * 1000)%nat.
Proof. vm_compute. reflexivity. Qed.

Lemma clock_duration_bound (k : nat) :
  (k <= last_tick)%nat -> (time_at k <=? 100.01) = true.
Proof.
  intros Hk.
  apply (clock_all_from_zero (fun T => T <=? 100.01) (S last_tick));
    [vm_compute; reflexivity|lia].
Qed.

(** X1: in the results of every run, [extinctionOccurred] is true exactly
    when one of the final populations of the summary is below 1. *)
Theorem extinction_flag_meaning (p : SimulationParameters) :
  exists res,
    simulate (constructor p) = Some res /\
    res_extinctionOccurred res
    = ((finalPrey (summary res) <? 1) || (finalPredator (summary res) <? 1)).
Proof.
  destruct (run_ends p) as (k & s_end & Hsim & Hend).
  exists (finish s_end). split; [exact Hsim|].
  destruct Hend as (_ & _ & _ & _ & _ & _ & Hout).
  change (res_extinctionOccurred (finish s_end))
    with (extinctionOccurred s_end).
  change ((finalPrey (summary (finish s_end)) <? 1)
          || (finalPredator (summary (finish s_end)) <? 1))
    with (below_one s_end).
  destruct (extinctionOccurred s_end); destruct Hout as [Hlow _];
    now rewrite Hlow.
Qed.

(** X2: every run returns between 1 and 1001 records (cadence records are
    at least ten integration steps apart) and a duration of at most
    100.01. *)
Theorem run_size_bounds (p : SimulationParameters) :
  exists res,
    simulate (constructor p) = Some res /\
    (1 <= length (timeSteps res) <= 1001)%nat /\
    (duration (summary res) <=? 100.01) = true.
Proof.
  destruct (run_ends p) as (k & s_end & Hsim & Hend).
  exists (finish s_end). split; [exact Hsim|].
  destruct Hend as (Hk & _ & Htime & Hlen & _).
  rewrite timeSteps_finish, length_app. cbn [length].
  change (duration (summary (finish s_end))) with (currentTime s_end).
  rewrite Htime. split; [|now apply clock_duration_bound].
  rewrite last_tick_value in Hk. lia.
Qed.

(** X3: a run that ends with neither extinction nor equilibrium went through
    all 10000 integration steps: its duration is the clock value after
    10000 additions of 0.01, 100.00000000001425. *)
Theorem full_length_run (p : SimulationParameters) :
  exists res,
    simulate (constructor p) = Some res /\
    (res_extinctionOccurred res = false ->
     res_equilibriumReached res = false ->
     duration (summary res) = time_at last_tick /\
     time_at last_tick = 100.00000000001425).
Proof.
  destruct (run_ends p) as (k & s_end & Hsim & Hend).
  exists (finish s_end). split; [exact Hsim|].
  change (res_extinctionOccurred (finish s_end))
    with (extinctionOccurred s_end).
  change (res_equilibriumReached (finish s_end))
    with (equilibriumReached s_end).
  change (duration (summary (finish s_end))) with (currentTime s_end).
  intros Hext Heq.
  destruct Hend as (Hk & _ & Htime & _ & _ & Hpoint & Hout).
  rewrite Hext in Hout. rewrite Heq in Hpoint.
  destruct Hout as (_ & Hguard & _). destruct Hpoint as [_ Hmax].
  split; [|exact final_time_eq].
  rewrite Htime. f_equal.
  destruct (Nat.eq_dec k last_tick) as [->|]; [reflexivity|exfalso].
  unfold loop_guard in Hguard. rewrite Htime, Hmax in Hguard.
  rewrite clock_below in Hguard; [discriminate|lia].
Qed.

(** X4: in the results of every run, [equilibriumPoint] is set exactly when
    [equilibriumReached] is true, and then its [timeToReach] is at least
    4.99: detection needs 50 records, and the 50th is stored no sooner than
    the 500th integration step. *)
Theorem equilibrium_point_consistent (p : SimulationParameters) :
  exists res,
    simulate (constructor p) = Some res /\
    if res_equilibriumReached res then
      exists pt, res_equilibriumPoint res = Some pt /\
                 (4.99 <=? timeToReach pt) = true
    else res_equilibriumPoint res = None.
Proof.
  destruct (run_ends p) as (k & s_end & Hsim & Hend).
  exists (finish s_end). split; [exact Hsim|].
  change (res_equilibriumReached (finish s_end))
    with (equilibriumReached s_end).
  change (res_equilibriumPoint (finish s_end))
    with (equilibriumPoint s_end).
  destruct Hend as (Hk & _ & _ & _ & _ & Hpoint & _).
  destruct (equilibriumReached s_end); [|exact (proj1 Hpoint)].
  destruct Hpoint as (j & pt & Hj & Hpt & Hreach & _).
  exists pt. split; [exact Hpt|].
  rewrite Hreach. apply clock_after_settling. lia.
Qed.

(** X5: when the stored results of a run make a scenario stable
    (models/Scenario.js: equilibrium reached and no extinction), the run was
    not stopped before the shrunk horizon: its duration is not below
    [Math.min(100, timeToReach + 10)]. *)
Theorem stable_run_length (p : SimulationParameters) :
  exists res,
    simulate (constructor p) = Some res /\
    (isStable_scenario res = true ->
     exists pt, res_equilibriumPoint res = Some pt /\
                (duration (summary res)
                 <? Math_min 100 (timeToReach pt + 10)) = false).
Proof.
  destruct (run_ends p) as (k & s_end & Hsim & Hend).
  exists (finish s_end). split; [exact Hsim|].
  unfold isStable_scenario.
  change (res_equilibriumReached (finish s_end))
    with (equilibriumReached s_end).
  change (res_extinctionOccurred (finish s_end))
    with (extinctionOccurred s_end).
  change (res_equilibriumPoint (finish s_end))
    with (equilibriumPoint s_end).
  change (duration (summary (finish s_end))) with (currentTime s_end).
  intros Hstable. apply andb_prop in Hstable as [Heq Hext].
  apply negb_true_iff in Hext.
  destruct Hend as (_ & _ & _ & _ & _ & Hpoint & Hout).
  rewrite Heq in Hpoint. rewrite Hext in Hout.
  destruct Hpoint as (j & pt & _ & Hpt & Hreach & Hmax).
  destruct Hout as (_ & Hguard & _).
  exists pt. split; [exact Hpt|].
  unfold loop_guard in Hguard. now rewrite Hmax, <- Hreach in Hguard.
Qed.

(** X6: without seasonal variation, every record of a run carries the base
    resource availability as its resource level. *)
Theorem nonseasonal_resource_level (p : SimulationParameters) :
  seasonalVariation (environment p) = false ->
  exists res,
    simulate (constructor p) = Some res /\
    Forall (fun r => resourceLevel r = resourceAvailability (environment p))
           (timeSteps res).
Proof.
  intros Hseason.
  assert (Hlevel : forall t,
             level (constructor p) t = resourceAvailability (environment p)).
  { intros t. unfold calculateResourceLevel. cbn [params constructor].
    now rewrite Hseason. }
  destruct (run_ends p) as (k & s_end & Hsim & Hend).
  exists (finish s_end). split; [exact Hsim|].
  destruct Hend as (_ & Hparams & _ & _ & Htaken & _).
  rewrite timeSteps_finish. apply Forall_app. split.
  - revert Htaken. apply Forall_impl. intros r (j & _ & _ & Hr).
    now rewrite Hr.
  - constructor; [|constructor]. cbn [record resourceLevel].
    rewrite <- (Hlevel (currentTime s_end)).
    now apply calculateResourceLevel_params.
Qed.

(** *** The streaming host *)

Local Abbreviation micro_step := (micro_step Math_sin).
Local Abbreviation advance_batch := (advance_batch Math_sin).
Local Abbreviation stream := (stream Math_sin).
Local Abbreviation stream_state := (stream_state Math_sin).

(** One round from a state of the stream: the flag it returns is the
    extinction test on the next point of the trajectory, where it leaves the
    simulator. *)
Lemma micro_step_state (p : SimulationParameters) (k : nat) (s : Simulator) :
  stream_state p k false s ->
  fst (micro_step s) = pops_below_one (trajectory p (S k)) /\
  stream_state p (S k) (fst (micro_step s)) (snd (micro_step s)).
Proof.
  intros (Hparams & Htime & Hprey & Hpredator & Hh & Hmax & Heq & Hpt & Hext).
  set (s2 := set_currentTime (integrate s) (currentTime (integrate s) + dt)).
  assert (Hprey2 : preyPop s2 = pop_prey (trajectory p (S k))).
  { cbn [s2 integrate preyPop set_pops set_currentTime trajectory].
    rewrite Hprey, Hpredator, Htime. f_equal.
    apply rungeKutta4Step_params. cbn [params constructor]. exact Hparams. }
  assert (Hpredator2 : predatorPop s2 = pop_predator (trajectory p (S k))).
  { cbn [s2 integrate predatorPop set_pops set_currentTime trajectory].
    rewrite Hprey, Hpredator, Htime. f_equal.
    apply rungeKutta4Step_params. cbn [params constructor]. exact Hparams. }
  assert (Hstep : micro_step s = checkExtinction s2) by reflexivity.
  assert (Hlow : (preyPop s2 <? 1) || (predatorPop s2 <? 1)
                 = pops_below_one (trajectory p (S k)))
    by exact (below_one_pops _ _ Hprey2 Hpredator2).
  rewrite Hstep. unfold checkExtinction. rewrite Hlow.
  destruct (pops_below_one (trajectory p (S k))); cbn [fst snd];
    (split; [reflexivity|]); unfold stream_state;
    cbn [params history currentTime maxTime preyPop predatorPop
         equilibriumReached equilibriumPoint extinctionOccurred
         set_extinctionOccurred];
    repeat split; try assumption;
    cbn [s2 integrate currentTime set_pops set_currentTime time_at];
    congruence.
Qed.

(** A batch of [n] rounds: it goes [n] ticks along the trajectory when no
    point on the way is below 1, and stops at the first one that is. *)
Lemma advance_batch_cases (p : SimulationParameters) (n k : nat)
    (s : Simulator) :
  stream_state p k false s ->
  (stream_state p (k + n) false (advance_batch n s) /\
   forall j, (k < j <= k + n)%nat -> pops_below_one (trajectory p j) = false)
  \/
  exists m, (k < m <= k + n)%nat /\
            stream_state p m true (advance_batch n s) /\
            pops_below_one (trajectory p m) = true /\
            forall j, (k < j < m)%nat ->
                      pops_below_one (trajectory p j) = false.
Proof.
  revert k s. induction n as [|n IH]; intros k s Hs.
  - left. rewrite Nat.add_0_r. split; [exact Hs|]. intros j Hj. lia.
  - destruct (micro_step_state p k s Hs) as [Hflag Hnext].
    change (advance_batch (S n) s)
      with (let '(extinct, sim') := micro_step s in
            if extinct then sim' else advance_batch n sim').
    destruct (micro_step s) as [extinct s'] eqn:Hstep. cbn [fst snd] in *.
    symmetry in Hflag. destruct extinct.
    + right. exists (S k).
      split; [lia|]. split; [exact Hnext|]. split; [exact Hflag|].
      intros j Hj. lia.
    + destruct (IH (S k) s' Hnext)
        as [[Hstate Hnone]|(m & Hm & Hstate & Hlow & Hnone)].
      * left. replace (k + S n)%nat with (S k + n)%nat by lia.
        split; [exact Hstate|]. intros j Hj.
        destruct (Nat.eq_dec j (S k)) as [->|]; [exact Hflag|].
        apply Hnone. lia.
      * right. exists m.
        split; [lia|]. split; [exact Hstate|]. split; [exact Hlow|].
        intros j Hj.
        destruct (Nat.eq_dec j (S k)) as [->|]; [exact Hflag|].
        apply Hnone. lia.
Qed.

Lemma stream_state_init (p : SimulationParameters) :
  stream_state p 0 false (constructor p).
Proof. unfold stream_state. cbn. repeat split. Qed.

Lemma stream_cons (fuel : nat) (s : Simulator) (step : nat) :
  stream (S fuel) s step =
  if stream_finished s then [Complete (getResults s)]
  else
    Update step (currentTime (advance_batch batch_size s))
           (preyPop (advance_batch batch_size s))
           (predatorPop (advance_batch batch_size s))
           (level (advance_batch batch_size s)
                  (currentTime (advance_batch batch_size s)))
    :: stream fuel (advance_batch batch_size s) (S step).
Proof.
  change (stream (S fuel) s step)
    with (match stream_tick Math_sin s step with
          | (event, None) => [event]
          | (event, Some (sim', step')) => event :: stream fuel sim' step'
          end).
  unfold stream_tick. now destruct (stream_finished s).
Qed.

(** The integration rounds of the streaming host and the iterations of the
    run follow the same trajectory.  Where iteration [i] of the run starts,
    the host stands after [i] rounds, with the same populations and clock
    and no extinction; and when that iteration breaks on extinction, round
    [i + 1] of the host stops with the same populations, the flag set, and
    its clock one [dt] ahead of the run's final time (the host advances the
    clock before the extinction test, the run leaves the loop before
    advancing it). *)
Lemma rounds_agree_with_run
    (p : SimulationParameters) (i : nat) (s : Simulator) (o : Outcome) :
  nth_error (iterations simulate_steps (constructor p) 0) i = Some (s, o) ->
  let t := advance_batch i (constructor p) in
  (preyPop t = preyPop s /\ predatorPop t = predatorPop s /\
   currentTime t = currentTime s /\ extinctionOccurred t = false) /\
  (is_break o = true ->
   let t' := advance_batch (S i) (constructor p) in
   preyPop t' = preyPop (outcome_state o) /\
   predatorPop t' = predatorPop (outcome_state o) /\
   extinctionOccurred t' = true /\
   currentTime t' = currentTime (outcome_state o) + dt).
Proof.
  intros Hnth.
  apply (iterations_invariant Math_sin Math_pow (run_inv p)
           (fun k s l s' l' => run_inv_step p k s s' l l')
           simulate_steps 0 (constructor p) 0)
    in Hnth; [|apply run_inv_init].
  destruct Hnth as (l & Hinv & Hguard & Ho & _). cbn [Nat.add] in Hinv.
  pose proof (run_inv_integrated _ _ _ _ Hinv) as Hs2. cbv zeta in Hs2.
  destruct Hs2 as (_ & Ht2 & _ & _ & _ & _ & Hprey2 & Hpredator2 & _).
  destruct Hinv as (_ & _ & Htime & Hprey & Hpredator & _ & Hnone & _).
  cbv zeta. split.
  - destruct (advance_batch_cases p i 0 (constructor p)
                (stream_state_init p))
      as [[Hstate _]|(m & Hm & _ & Hlow & _)].
    + destruct Hstate as (_ & Ht & Hp & Hq & _ & _ & _ & _ & Hx).
      cbn [Nat.add] in *. repeat split; congruence.
    + rewrite Hnone in Hlow; [discriminate|lia].
  - intros Hbreak.
    destruct (iteration_shape Math_sin Math_pow s l)
      as [[Hlow H]|(_ & s4 & H & _)];
      rewrite H in Ho; subst o; [|discriminate Hbreak].
    cbn [outcome_state preyPop predatorPop currentTime
         set_extinctionOccurred].
    rewrite (below_one_pops _ _ Hprey2 Hpredator2) in Hlow.
    destruct (advance_batch_cases p (S i) 0 (constructor p)
                (stream_state_init p))
      as [[_ Hnone']|(m & Hm & Hstate & Hlow' & Hnone')].
    + rewrite Hnone' in Hlow; [discriminate|lia].
    + assert (m = S i) as ->.
      { destruct (Nat.eq_dec m (S i)); [assumption|exfalso].
        rewrite Hnone in Hlow'; [discriminate|lia]. }
      destruct Hstate as (_ & Ht & Hp & Hq & _ & _ & _ & _ & Hx).
      cbn [time_at] in Ht. repeat split; congruence.
Qed.

Lemma stream_from (p : SimulationParameters) (r m : nat) (s : Simulator)
    (step : nat) :
  (m + r = 1000)%nat -> stream_state p (10 * m) false s ->
  exists updates res,
    stream (S r) s step = updates ++ [Complete res] /\
    forallb is_update updates = true /\ (length updates <= r)%nat.
Proof.
  revert m s step. induction r as [|r IH]; intros m s step Hm Hs;
    rewrite stream_cons; unfold stream_finished;
    pose proof Hs as (_ & Htime & _ & _ & _ & Hmax & _ & _ & Hext);
    rewrite Htime, Hmax, Hext, orb_false_r.
  - replace (10 * m)%nat with last_tick
      by (rewrite last_tick_value; lia).
    rewrite clock_finished. exists [], (getResults s).
    repeat split. cbn. lia.
  - rewrite clock_not_finished by (rewrite last_tick_value; lia).
    destruct (advance_batch_cases p batch_size (10 * m) s Hs)
      as [[Hstate _]|(m' & _ & Hstate & _)].
    + replace (10 * m + batch_size)%nat with (10 * S m)%nat in Hstate
        by (unfold batch_size; lia).
      destruct (IH (S m) _ (S step) ltac:(lia) Hstate)
        as (updates & res & Hstream & Hall & Hlen).
      rewrite Hstream. eexists (_ :: updates), res.
      split; [reflexivity|]. split; [exact Hall|]. cbn [length]. lia.
    + destruct Hstate as (_ & _ & _ & _ & _ & _ & _ & _ & Hx).
      rewrite stream_cons. unfold stream_finished. rewrite Hx, orb_true_r.
      eexists [_], _. split; [reflexivity|]. split; [reflexivity|].
      cbn [length]. lia.
Qed.

(** X8: a stream is finite: for every parameter set the host writes at most
    1000 [update] events, then one [complete] event, within 1001 firings of
    the interval. *)
Theorem stream_terminates (p : SimulationParameters) :
  exists updates res,
    stream 1001 (constructor p) 0 = updates ++ [Complete res] /\
    forallb is_update updates = true /\ (length updates <= 1000)%nat.
Proof.
  exact (stream_from p 1000 0 (constructor p) 0 eq_refl
           (stream_state_init p)).
Qed.

Lemma stream_bare (p : SimulationParameters) (fuel k : nat) (extinct : bool)
    (s : Simulator) (step : nat) :
  stream_state p k extinct s ->
  Forall complete_is_bare (stream fuel s step).
Proof.
  revert k extinct s step.
  induction fuel as [|fuel IH]; intros k extinct s step Hs;
    [constructor|].
  rewrite stream_cons.
  destruct (stream_finished s) eqn:Hfinished.
  - constructor; [|constructor].
    destruct Hs as (_ & _ & _ & _ & Hh & _ & Heq & Hpt & _).
    unfold complete_is_bare, getResults.
    cbn [timeSteps res_equilibriumReached res_equilibriumPoint summary
         maxPrey maxPredator minPrey minPredator averageResourceLevel].
    rewrite Hh. repeat split; assumption.
  - constructor; [exact I|].
    unfold stream_finished in Hfinished.
    apply orb_false_elim in Hfinished as [_ Hx].
    assert (Hs' : stream_state p k false s).
    { destruct Hs as (? & ? & ? & ? & ? & ? & ? & ? & _).
      unfold stream_state. repeat split; assumption. }
    destruct (advance_batch_cases p batch_size k s Hs')
      as [[Hstate _]|(m & _ & Hstate & _)];
      exact (IH _ _ _ _ Hstate).
Qed.

(** X9: the streaming host records nothing and detects no equilibrium: for
    every parameter set, every [complete] event it writes carries an empty
    [timeSteps], [equilibriumReached = false] and no equilibrium point, and
    the summary of an empty history: maxima -Infinity, minima Infinity,
    and an average resource level that is NaN. *)
Theorem stream_complete_is_bare (p : SimulationParameters) (fuel : nat) :
  Forall complete_is_bare (stream fuel (constructor p) 0).
Proof. exact (stream_bare p fuel 0 false _ 0 (stream_state_init p)). Qed.

(** *** The events of a stream *)

Local Abbreviation update_at := (update_at Math_sin).

Lemma nth_error_map_seq {A : Type} (f : nat -> A) (q n : nat) :
  (n < q)%nat -> nth_error (map f (seq 0 q)) n = Some (f n).
Proof.
  intros Hn. rewrite nth_error_map.
  rewrite (nth_error_nth' _ 0%nat) by (rewrite length_seq; lia).
  rewrite seq_nth by lia. reflexivity.
Qed.

(** The event a firing writes when its batch runs to the end. *)
Lemma update_of_state (p : SimulationParameters) (k step : nat)
    (extinct : bool) (s : Simulator) :
  stream_state p k extinct s ->
  Update step (currentTime s) (preyPop s) (predatorPop s)
         (level s (currentTime s))
  = update_at p step k.
Proof.
  intros (Hparams & Htime & Hprey & Hpredator & _).
  rewrite Htime, Hprey, Hpredator.
  rewrite (calculateResourceLevel_params s (constructor p))
    by (cbn [params constructor]; exact Hparams).
  reflexivity.
Qed.

(** While no point of the trajectory is below 1, each firing writes the
    [update] event of the point ten rounds further on. *)
Lemma stream_prefix (p : SimulationParameters) (q : nat) :
  forall (fuel k : nat) (s : Simulator) (step : nat),
    stream_state p k false s -> (k + 10 * q <= last_tick)%nat ->
    (forall j, (k < j <= k + 10 * q)%nat ->
               pops_below_one (trajectory p j) = false) ->
    exists s1,
      stream_state p (k + 10 * q) false s1 /\
      stream (q + fuel) s step
      = map (fun n => update_at p (step + n) (k + 10 * S n)) (seq 0 q)
        ++ stream fuel s1 (step + q).
Proof.
  induction q as [|q IH]; intros fuel k s step Hs Hk Hnone.
  - exists s. rewrite Nat.mul_0_r, !Nat.add_0_r.
    split; [exact Hs|reflexivity].
  - change (S q + fuel)%nat with (S (q + fuel)). rewrite stream_cons.
    unfold stream_finished.
    pose proof Hs as (_ & Htime & _ & _ & _ & Hmax & _ & _ & Hext).
    rewrite Htime, Hmax, Hext, orb_false_r.
    rewrite clock_not_finished by lia.
    destruct (advance_batch_cases p batch_size k s Hs)
      as [[Hstate _]|(m & Hm & _ & Hlow & _)].
    2: { unfold batch_size in Hm.
         rewrite Hnone in Hlow; [discriminate|lia]. }
    rewrite (update_of_state p (k + batch_size) step false _ Hstate).
    destruct (IH fuel (k + batch_size)%nat (advance_batch batch_size s)
                (S step) Hstate) as (s1 & Hs1 & Hrest).
    + unfold batch_size. lia.
    + intros j Hj. apply Hnone. unfold batch_size in Hj. lia.
    + exists s1. split.
      * replace (k + 10 * S q)%nat with (k + batch_size + 10 * q)%nat
          by (unfold batch_size; lia).
        exact Hs1.
      * rewrite Hrest. cbn [seq map app]. rewrite <- seq_shift, map_map.
        replace (S step + q)%nat with (step + S q)%nat by lia.
        f_equal.
        -- f_equal; unfold batch_size; lia.
        -- f_equal. apply map_ext. intros n.
           f_equal; unfold batch_size; lia.
Qed.

(** X7: the streaming host reports the states of the run.  Whenever the run
    gets as far as starting its iteration [10 * (m + 1)], the [update] event
    number [m] of the stream carries the clock, the populations and the
    resource level the run has there. *)
Theorem stream_agrees_with_run
    (p : SimulationParameters) (m fuel : nat) (s : Simulator) (o : Outcome) :
  nth_error (iterations simulate_steps (constructor p) 0) (10 * S m)
  = Some (s, o) ->
  (m < fuel)%nat ->
  nth_error (stream fuel (constructor p) 0) m
  = Some (Update m (currentTime s) (preyPop s) (predatorPop s)
                 (level s (currentTime s))).
Proof.
  intros Hnth Hfuel.
  apply (iterations_invariant Math_sin Math_pow (run_inv p)
           (fun k s l s' l' => run_inv_step p k s s' l l')
           simulate_steps 0 (constructor p) 0)
    in Hnth; [|apply run_inv_init].
  destruct Hnth as (l & Hinv & _). cbn [Nat.add] in Hinv.
  destruct Hinv as (Hk & Hparams & Htime & Hprey & Hpredator & _ & Hnone & _).
  destruct (stream_prefix p (S m) (fuel - S m) 0 (constructor p) 0
              (stream_state_init p)) as (s1 & _ & Hstream).
  - exact Hk.
  - intros j Hj. apply Hnone. lia.
  - replace (S m + (fuel - S m))%nat with fuel in Hstream by lia.
    rewrite Hstream, nth_error_app1 by (rewrite length_map, length_seq; lia).
    rewrite nth_error_map_seq by lia. cbn [Nat.add]. f_equal.
    unfold update_at.
    rewrite Htime, Hprey, Hpredator.
    rewrite (calculateResourceLevel_params s (constructor p))
      by (cbn [params constructor]; exact Hparams).
    reflexivity.
Qed.

(** X14: the streaming host reports an extinction of the run.  When the run
    breaks on extinction in its iteration [i], the stream consists of
    [i / 10] updates, one more update that carries the populations of the
    run's final state and a clock one [dt] ahead of the run's final time
    (the host advances the clock before the extinction test), and the
    [complete] event, whose results have the flag set and the same final
    populations and clock. *)
Theorem stream_reports_extinction
    (p : SimulationParameters) (i fuel : nat) (s : Simulator) (o : Outcome) :
  nth_error (iterations simulate_steps (constructor p) 0) i = Some (s, o) ->
  is_break o = true ->
  (S (i / 10) < fuel)%nat ->
  let s' := outcome_state o in
  exists updates res,
    stream fuel (constructor p) 0
    = updates
      ++ [Update (i / 10) (currentTime s' + dt) (preyPop s') (predatorPop s')
                 (level s' (currentTime s' + dt));
          Complete res] /\
    length updates = (i / 10)%nat /\
    forallb is_update updates = true /\
    res_extinctionOccurred res = true /\
    duration (summary res) = currentTime s' + dt /\
    finalPrey (summary res) = preyPop s' /\
    finalPredator (summary res) = predatorPop s'.
Proof.
  intros Hnth Hbreak Hfuel.
  apply (iterations_invariant Math_sin Math_pow (run_inv p)
           (fun k s l s' l' => run_inv_step p k s s' l l')
           simulate_steps 0 (constructor p) 0)
    in Hnth; [|apply run_inv_init].
  destruct Hnth as (l & Hinv & Hguard & Ho & _). cbn [Nat.add] in Hinv.
  pose proof (run_inv_guard _ _ _ _ Hinv Hguard) as Hlt.
  pose proof (run_inv_integrated _ _ _ _ Hinv) as Hs2. cbv zeta in Hs2.
  destruct Hs2 as (Hp2 & Ht2 & _ & _ & _ & _ & Hprey2 & Hpredator2 & _).
  destruct Hinv as (_ & _ & _ & _ & _ & _ & Hnone & _).
  destruct (iteration_shape Math_sin Math_pow s l)
    as [[Hlow H]|(_ & s4 & H & _)];
    rewrite H in Ho; subst o; [|discriminate Hbreak].
  rewrite (below_one_pops _ _ Hprey2 Hpredator2) in Hlow.
  cbv zeta.
  cbn [outcome_state preyPop predatorPop currentTime set_extinctionOccurred].
  pose proof (Nat.div_mod_eq i 10) as Hdiv.
  pose proof (Nat.mod_upper_bound i 10 ltac:(lia)) as Hmod.
  set (q := (i / 10)%nat) in *.
  destruct (stream_prefix p q (fuel - q) 0 (constructor p) 0
              (stream_state_init p)) as (s1 & Hs1 & Hstream).
  { cbn [Nat.add]. lia. }
  { intros j Hj. apply Hnone. lia. }
  replace (q + (fuel - q))%nat with fuel in Hstream by lia.
  cbn [Nat.add] in Hs1, Hstream.
  destruct (fuel - q)%nat as [|[|fuel']] eqn:Hleft; [lia|lia|].
  rewrite stream_cons in Hstream. unfold stream_finished in Hstream.
  pose proof Hs1 as (_ & Htime1 & _ & _ & _ & Hmax1 & _ & _ & Hext1).
  rewrite Htime1, Hmax1, Hext1, orb_false_r in Hstream.
  rewrite clock_not_finished in Hstream by lia.
  destruct (advance_batch_cases p batch_size (10 * q) s1 Hs1)
    as [[_ Hnone']|(m & Hm & Hstate & Hlow' & Hnone')];
    unfold batch_size in *.
  { rewrite Hnone' in Hlow; [discriminate|lia]. }
  assert (m = S i) as ->.
  { destruct (Nat.lt_total m (S i)) as [Hlt'|[Heq|Hgt]]; [exfalso|exact Heq|
                                                           exfalso].
    - rewrite Hnone in Hlow'; [discriminate|lia].
    - rewrite Hnone' in Hlow; [discriminate|lia]. }
  rewrite (update_of_state p (S i) q true _ Hstate) in Hstream.
  rewrite stream_cons in Hstream. unfold stream_finished in Hstream.
  pose proof Hstate as (Hp3 & Ht3 & Hprey3 & Hpredator3 & _ & _ & _ & _
                        & Hext3).
  rewrite Hext3, orb_true_r in Hstream.
  exists (map (fun n => update_at p n (10 * S n)) (seq 0 q)),
         (getResults (advance_batch 10 s1)).
  split; [|split; [|split; [|split; [|split; [|split]]]]].
  - rewrite Hstream. f_equal. f_equal. unfold update_at.
    cbn [time_at]. rewrite Ht2, Hprey2, Hpredator2.
    rewrite (calculateResourceLevel_params
               (set_extinctionOccurred (integrate (fst (store_history s l))))
               (constructor p))
      by (cbn [params set_extinctionOccurred constructor]; exact Hp2).
    reflexivity.
  - now rewrite length_map, length_seq.
  - rewrite forallb_forall. intros e He.
    apply in_map_iff in He as (n & <- & _). reflexivity.
  - cbn [getResults res_extinctionOccurred]. exact Hext3.
  - cbn [getResults summary duration]. rewrite Ht3, Ht2. reflexivity.
  - cbn [getResults summary finalPrey]. congruence.
  - cbn [getResults summary finalPredator]. congruence.
Qed.

End Coverage.

(** ** The order of binary64 values, the predictor's cap and the summary *)

Lemma SFleb_trans (a b c : spec_float) :
  SFleb a b = true -> SFleb b c = true -> SFleb a c = true.
Proof.
  unfold SFleb.
  destruct a as [sa|sa| |sa ma ea], b as [sb|sb| |sb mb eb],
           c as [sc|sc| |sc mc ec]; simpl;
    try discriminate; try reflexivity;
    try (destruct sa; simpl; try discriminate; try reflexivity);
    try (destruct sb; simpl; try discriminate; try reflexivity);
    try (destruct sc; simpl; try discriminate; try reflexivity).
  all: change (Pos.compare_cont Eq ma mb) with (ma ?= mb)%positive;
       change (Pos.compare_cont Eq mb mc) with (mb ?= mc)%positive;
       change (Pos.compare_cont Eq ma mc) with (ma ?= mc)%positive.
  all: destruct (Z.compare_spec ea eb); destruct (Z.compare_spec eb ec);
       destruct (Z.compare_spec ea ec); simpl;
       try discriminate; try reflexivity; try lia.
  all: destruct (Pos.compare_spec ma mb); destruct (Pos.compare_spec mb mc);
       destruct (Pos.compare_spec ma mc); simpl;
       try discriminate; try reflexivity; try lia.
Qed.

Lemma leb_trans (a b c : float) :
  (a <=? b) = true -> (b <=? c) = true -> (a <=? c) = true.
Proof. rewrite !leb_spec. apply SFleb_trans. Qed.

Lemma leb_refl (a : float) : is_nan a = false -> (a <=? a) = true.
Proof.
  rewrite is_nan_spec, leb_spec. unfold SFleb. rewrite SFcompare_refl.
  now intros ->.
Qed.

(** [Math.max] and [Math.min] return NaN exactly on a NaN argument, and
    otherwise one of their arguments, above, respectively below, both. *)
Lemma Math_max_nan (a b : float) :
  is_nan (Math_max a b) = is_nan a || is_nan b.
Proof.
  unfold Math_max.
  destruct (is_nan a) eqn:Ha; [reflexivity|].
  destruct (is_nan b) eqn:Hb; [reflexivity|]. cbn [orb].
  destruct (a <? b); [exact Hb|]. destruct (b <? a); [exact Ha|].
  now destruct (get_sign a).
Qed.

Lemma Math_min_nan (a b : float) :
  is_nan (Math_min a b) = is_nan a || is_nan b.
Proof.
  unfold Math_min.
  destruct (is_nan a) eqn:Ha; [reflexivity|].
  destruct (is_nan b) eqn:Hb; [reflexivity|]. cbn [orb].
  destruct (a <? b); [exact Ha|]. destruct (b <? a); [exact Hb|].
  now destruct (get_sign a).
Qed.

Lemma Math_max_above (a b : float) :
  is_nan a = false -> is_nan b = false ->
  (a <=? Math_max a b) = true /\ (b <=? Math_max a b) = true.
Proof.
  intros Ha Hb. unfold Math_max. rewrite Ha, Hb. cbn [orb].
  destruct (a <? b) eqn:Hab; [split; auto using ltb_leb, leb_refl|].
  destruct (b <? a) eqn:Hba; [split; auto using ltb_leb, leb_refl|].
  destruct (get_sign a); split; auto using not_ltb_leb, leb_refl.
Qed.

Lemma Math_min_below (a b : float) :
  is_nan a = false -> is_nan b = false ->
  (Math_min a b <=? a) = true /\ (Math_min a b <=? b) = true.
Proof.
  intros Ha Hb. unfold Math_min. rewrite Ha, Hb. cbn [orb].
  destruct (a <? b) eqn:Hab; [split; auto using ltb_leb, leb_refl|].
  destruct (b <? a) eqn:Hba; [split; auto using ltb_leb, leb_refl|].
  destruct (get_sign a); split; auto using not_ltb_leb, leb_refl.
Qed.

(** X10: the predictor's prey estimate is capped: unless it is NaN, it
    exceeds neither 0.8 times the carrying capacity nor the uncapped
    estimate [deathRate / (huntingEfficiency * 0.5)]. *)
Theorem predictor_prey_cap (p : SimulationParameters) :
  exists r,
    predictEquilibrium p = Normal r /\
    (is_nan (pred_prey r) = false ->
     (pred_prey r <=? carryingCapacity (prey p) * 0.8) = true /\
     (pred_prey r
      <=? deathRate (predator p) / (huntingEfficiency (predator p) * 0.5))
     = true).
Proof.
  unfold predictEquilibrium. eexists. split; [reflexivity|].
  cbn [pred_prey]. rewrite Math_min_nan. intros Hnan.
  apply orb_false_elim in Hnan as [Ha Hb].
  destruct (Math_min_below _ _ Ha Hb). now split.
Qed.

(** On the Balanced preset the estimate is the uncapped 100. *)
Lemma predictor_prey_cap_witness :
  exists r,
    predictEquilibrium balanced = Normal r /\
    (pred_prey r <=? carryingCapacity (prey balanced) * 0.8) = true /\
    (pred_prey r
     <=? deathRate (predator balanced)
         / (huntingEfficiency (predator balanced) * 0.5)) = true.
Proof.
  destruct (predictor_prey_cap balanced) as (r & Hr & Hcap).
  exists r. split; [exact Hr|]. apply Hcap.
  injection Hr as <-. reflexivity.
Defined.

(** The folds of [getResults]. *)
Lemma fold_max_nan (xs : list float) (acc : float) :
  is_nan (fold_left Math_max xs acc) = is_nan acc || existsb is_nan xs.
Proof.
  revert acc. induction xs as [|v xs IH]; intros acc; cbn [fold_left existsb].
  - now rewrite orb_false_r.
  - now rewrite IH, Math_max_nan, orb_assoc.
Qed.

Lemma fold_min_nan (xs : list float) (acc : float) :
  is_nan (fold_left Math_min xs acc) = is_nan acc || existsb is_nan xs.
Proof.
  revert acc. induction xs as [|v xs IH]; intros acc; cbn [fold_left existsb].
  - now rewrite orb_false_r.
  - now rewrite IH, Math_min_nan, orb_assoc.
Qed.

Lemma fold_max_above (xs : list float) (acc : float) :
  is_nan acc = false -> no_nan xs = true ->
  (acc <=? fold_left Math_max xs acc) = true /\
  forallb (fun v => v <=? fold_left Math_max xs acc) xs = true.
Proof.
  revert acc. induction xs as [|v xs IH]; intros acc Hacc Hxs;
    cbn [fold_left forallb].
  - split; [now apply leb_refl|reflexivity].
  - cbn [no_nan forallb] in Hxs. apply andb_prop in Hxs as [Hv Hxs].
    apply negb_true_iff in Hv.
    destruct (Math_max_above acc v Hacc Hv) as [Hle_acc Hle_v].
    assert (Hnext : is_nan (Math_max acc v) = false)
      by (now rewrite Math_max_nan, Hacc, Hv).
    destruct (IH (Math_max acc v) Hnext Hxs) as [Hle Hall].
    split; [exact (leb_trans _ _ _ Hle_acc Hle)|].
    now rewrite (leb_trans _ _ _ Hle_v Hle), Hall.
Qed.

Lemma fold_min_below (xs : list float) (acc : float) :
  is_nan acc = false -> no_nan xs = true ->
  (fold_left Math_min xs acc <=? acc) = true /\
  forallb (fun v => fold_left Math_min xs acc <=? v) xs = true.
Proof.
  revert acc. induction xs as [|v xs IH]; intros acc Hacc Hxs;
    cbn [fold_left forallb].
  - split; [now apply leb_refl|reflexivity].
  - cbn [no_nan forallb] in Hxs. apply andb_prop in Hxs as [Hv Hxs].
    apply negb_true_iff in Hv.
    destruct (Math_min_below acc v Hacc Hv) as [Hle_acc Hle_v].
    assert (Hnext : is_nan (Math_min acc v) = false)
      by (now rewrite Math_min_nan, Hacc, Hv).
    destruct (IH (Math_min acc v) Hnext Hxs) as [Hle Hall].
    split; [exact (leb_trans _ _ _ Hle Hle_acc)|].
    now rewrite (leb_trans _ _ _ Hle Hle_v), Hall.
Qed.

Lemma extremes_between (xs : list float) :
  no_nan xs = true ->
  all_between (Math_min_all xs) (Math_max_all xs) xs = true.
Proof.
  intros Hxs. unfold all_between, Math_min_all, Math_max_all.
  destruct (fold_max_above xs neg_infinity eq_refl Hxs) as [_ Hmax].
  destruct (fold_min_below xs infinity eq_refl Hxs) as [_ Hmin].
  apply forallb_forall. intros v Hv.
  rewrite forallb_forall in Hmax, Hmin.
  now rewrite (Hmax v Hv), (Hmin v Hv).
Qed.

(** X11: when no recorded population is NaN, the summary's minima and
    maxima bound the records: every recorded prey lies between [minPrey] and
    [maxPrey], every recorded predator between [minPredator] and
    [maxPredator]. *)
Theorem summary_extremes (this : Simulator) :
  no_nan (map preyPopulation (history this)) = true ->
  no_nan (map predatorPopulation (history this)) = true ->
  let sm := summary (getResults this) in
  all_between (minPrey sm) (maxPrey sm)
              (map preyPopulation (history this)) = true /\
  all_between (minPredator sm) (maxPredator sm)
              (map predatorPopulation (history this)) = true.
Proof.
  intros Hprey Hpredator. cbv zeta. unfold getResults.
  cbn [summary minPrey maxPrey minPredator maxPredator].
  split; now apply extremes_between.
Qed.

(** On the ten records of the run of the Predator Dominant preset. *)
Lemma summary_extremes_witness :
  let sm := summary (getResults extinct_end) in
  length (history extinct_end) = 10%nat /\
  all_between (minPrey sm) (maxPrey sm)
              (map preyPopulation (history extinct_end)) = true /\
  all_between (minPredator sm) (maxPredator sm)
              (map predatorPopulation (history extinct_end)) = true.
Proof.
  assert (Hprey : no_nan (map preyPopulation (history extinct_end)) = true)
    by (vm_compute; reflexivity).
  assert (Hpredator :
            no_nan (map predatorPopulation (history extinct_end)) = true)
    by (vm_compute; reflexivity).
  assert (Hlen : length (history extinct_end) = 10%nat)
    by (vm_compute; reflexivity).
  exact (conj Hlen (summary_extremes extinct_end Hprey Hpredator)).
Defined.

(** X12: a single NaN poisons the summary: each of [maxPrey], [minPrey],
    [maxPredator] and [minPredator] is NaN exactly when some record holds
    NaN for that population. *)
Theorem summary_nan (this : Simulator) :
  let sm := summary (getResults this) in
  is_nan (maxPrey sm)
  = existsb is_nan (map preyPopulation (history this)) /\
  is_nan (minPrey sm)
  = existsb is_nan (map preyPopulation (history this)) /\
  is_nan (maxPredator sm)
  = existsb is_nan (map predatorPopulation (history this)) /\
  is_nan (minPredator sm)
  = existsb is_nan (map predatorPopulation (history this)).
Proof.
  cbv zeta. unfold getResults, Math_max_all, Math_min_all.
  cbn [summary minPrey maxPrey minPredator maxPredator].
  now rewrite !fold_max_nan, !fold_min_nan.
Qed.

(** ** The time stamps of the records *)

Lemma SFltb_trans (a b c : spec_float) :
  SFltb a b = true -> SFltb b c = true -> SFltb a c = true.
Proof.
  unfold SFltb.
  destruct a as [sa|sa| |sa ma ea], b as [sb|sb| |sb mb eb],
           c as [sc|sc| |sc mc ec]; simpl;
    try discriminate; try reflexivity;
    try (destruct sa; simpl; try discriminate; try reflexivity);
    try (destruct sb; simpl; try discriminate; try reflexivity);
    try (destruct sc; simpl; try discriminate; try reflexivity).
  all: change (Pos.compare_cont Eq ma mb) with (ma ?= mb)%positive;
       change (Pos.compare_cont Eq mb mc) with (mb ?= mc)%positive;
       change (Pos.compare_cont Eq ma mc) with (ma ?= mc)%positive.
  all: destruct (Z.compare_spec ea eb); destruct (Z.compare_spec eb ec);
       destruct (Z.compare_spec ea ec); simpl;
       try discriminate; try reflexivity; try lia.
  all: destruct (Pos.compare_spec ma mb); destruct (Pos.compare_spec mb mc);
       destruct (Pos.compare_spec ma mc); simpl;
       try discriminate; try reflexivity; try lia.
Qed.

Lemma ltb_trans (a b c : float) :
  (a <? b) = true -> (b <? c) = true -> (a <? c) = true.
Proof. rewrite !ltb_spec. apply SFltb_trans. Qed.

(** Along the clock of a run the time stamps strictly increase. *)
Lemma stamp_next (k : nat) :
  (k < last_tick)%nat ->
  (stamp_of (time_at k) <? stamp_of (time_at (S k))) = true.
Proof.
  intros Hk.
  exact (clock_all_spec (fun T => stamp_of T <? stamp_of (T + dt))
           last_tick 0 ltac:(vm_compute; reflexivity) k Hk).
Qed.

Lemma stamp_lt (i k : nat) :
  (i < k <= last_tick)%nat ->
  (stamp_of (time_at i) <? stamp_of (time_at k)) = true.
Proof.
  induction k as [|k IH]; intros Hik; [lia|].
  destruct (Nat.eq_dec i k) as [->|].
  - apply stamp_next. lia.
  - apply (ltb_trans _ (stamp_of (time_at k))).
    + apply IH. lia.
    + apply stamp_next. lia.
Qed.

Lemma stamp_le (i k : nat) :
  (i <= k <= last_tick)%nat ->
  (stamp_of (time_at i) <=? stamp_of (time_at k)) = true.
Proof.
  intros Hik. destruct (Nat.eq_dec i k) as [->|].
  - apply leb_refl. apply negb_true_iff.
    exact (clock_all_spec (fun T => negb (is_nan (stamp_of T)))
             (S last_tick) 0 ltac:(vm_compute; reflexivity) k ltac:(lia)).
  - apply ltb_leb, stamp_lt. lia.
Qed.

Lemma StronglySorted_snoc {A : Type} (R : A -> A -> Prop) (l : list A)
    (a : A) :
  StronglySorted R l -> Forall (fun b => R b a) l ->
  StronglySorted R (l ++ [a]).
Proof.
  induction 1 as [|b l Hsorted IH Hb]; intros Hall; cbn.
  - repeat constructor.
  - inversion Hall as [|? ? Hba Hrest]; subst.
    constructor; [now apply IH|].
    apply Forall_app. split; [exact Hb|now constructor].
Qed.

Lemma stamped_by_later (k k' : nat) (h : list TimeStep) :
  (k <= k')%nat -> Forall (stamped_by k) h -> Forall (stamped_by k') h.
Proof.
  intros Hk. apply Forall_impl. intros r (i & Hi & Hr).
  exists i. split; [lia|exact Hr].
Qed.

Section Stamps.

Variable Math_sin : float -> float.
Variable Math_pow : float -> float -> float.

(** The cadence record of iteration [k] keeps the stamps in order. *)
Lemma stamps_store (k : nat) (s : Simulator) (l : float) :
  (k <= last_tick)%nat -> currentTime s = time_at k -> stamps_inv k s l ->
  stamps_inv k (fst (store_history Math_sin s l))
             (snd (store_history Math_sin s l)).
Proof.
  intros Hk Htime (j & Hj & Hl & Hstamped & Hsorted).
  rewrite store_history_cases.
  destruct (geb (currentTime s - l) recordInterval) eqn:Hgap;
    cbn [fst snd]; [|exists j; repeat split; assumption].
  rewrite Htime, Hl in Hgap. apply gap_at_least in Hgap; [|lia].
  exists k. split; [lia|]. split; [exact Htime|].
  cbn [history set_history]. split.
  - apply Forall_app. split.
    + apply (stamped_by_later j); [lia|exact Hstamped].
    + constructor; [|constructor]. exists k. split; [lia|].
      cbn [record time]. now rewrite Htime.
  - apply StronglySorted_snoc; [exact Hsorted|].
    revert Hstamped. apply Forall_impl. intros r (i & Hi & Hr).
    unfold before. cbn [record time]. rewrite Hr, Htime.
    apply stamp_lt. lia.
Qed.

Lemma stamps_outcome (k : nat) (s : Simulator) (l : float) :
  (k <= last_tick)%nat -> currentTime s = time_at k -> stamps_inv k s l ->
  match loop_body Math_sin Math_pow s l with
  | Continue s' l' => stamps_inv (S k) s' l'
  | Break s' => stamps_end s'
  end.
Proof.
  intros Hk Htime Hinv.
  destruct (stamps_store k s l Hk Htime Hinv)
    as (j & Hj & Hl & Hstamped & Hsorted).
  destruct (integrate_store_frame Math_sin s l)
    as (_ & Ht2 & _ & _ & _ & _ & Hh2).
  destruct (iteration_shape Math_sin Math_pow s l)
    as [[_ H]|(_ & s4 & H & [->|(_ & _ & ->)])]; rewrite H.
  - exists k. cbn [currentTime history set_extinctionOccurred].
    rewrite Hh2, Ht2.
    repeat split; try assumption.
    apply (stamped_by_later j); [lia|exact Hstamped].
  - exists j. cbn [history set_currentTime]. rewrite Hh2.
    repeat split; try assumption. lia.
  - exists j.
    cbn [history set_currentTime set_maxTime set_equilibrium].
    rewrite Hh2. repeat split; try assumption. lia.
Qed.

(** X13: in the record sequence of every run, the time stamps of the
    cadence records strictly increase, and the final record, appended after
    the loop, is stamped no earlier than any of them. *)
Theorem record_time_stamps (p : SimulationParameters) :
  exists res cadence final,
    simulate Math_sin Math_pow (constructor p) = Some res /\
    timeSteps res = cadence ++ [final] /\
    StronglySorted before cadence /\
    Forall (fun r => (time r <=? time final) = true) cadence.
Proof.
  destruct (simulate_returns Math_sin Math_pow p) as (s_end & Hloop & Hsim).
  assert (Hend : stamps_end s_end).
  { revert Hloop.
    apply (while_loop_invariant Math_sin Math_pow
             (fun k s l => run_inv Math_sin p k s l /\ stamps_inv k s l)
             stamps_end) with (k := 0%nat).
    - intros k s l [Hrun Hstamps] Hguard.
      assert (Hlt : (k < last_tick)%nat)
        by (eapply run_inv_guard; eassumption).
      pose proof Hrun as (_ & _ & Htime & _).
      pose proof (stamps_outcome k s l ltac:(lia) Htime Hstamps) as Hout.
      destruct (loop_body Math_sin Math_pow s l) as [s' l'|s'] eqn:Hbody;
        [|exact Hout].
      split; [|exact Hout].
      eapply run_inv_step; eassumption.
    - intros k s l [Hrun (j & Hj & _ & Hstamped & Hsorted)] _.
      destruct Hrun as (Hk & _ & Htime & _).
      exists k. repeat split; try assumption.
      apply (stamped_by_later j); [lia|exact Hstamped].
    - split; [apply run_inv_init|].
      exists 0%nat. repeat split; try lia; constructor. }
  destruct Hend as (k & Hk & Htime & Hstamped & Hsorted).
  exists (finish Math_sin s_end), (history s_end), (record Math_sin s_end).
  split; [exact Hsim|]. split; [apply timeSteps_finish|].
  split; [exact Hsorted|].
  revert Hstamped. apply Forall_impl. intros r (i & Hi & Hr).
  cbn [record time]. rewrite Hr, Htime.
  apply stamp_le. lia.
Qed.

End Stamps.

(** ** The extra properties on concrete runs *)

(** The Balanced preset has no seasonal variation: all its records carry the
    base resource availability. *)
Lemma nonseasonal_resource_level_witness :
  seasonalVariation (environment balanced) = false /\
  exists res,
    simulate sin_taylor pow_square (constructor balanced) = Some res /\
    Forall (fun r =>
              resourceLevel r = resourceAvailability (environment balanced))
           (timeSteps res).
Proof.
  exact (conj eq_refl
           (nonseasonal_resource_level sin_taylor pow_square balanced
              eq_refl)).
Defined.

(** The run of [cycling] neither dies out nor settles: it goes through all
    the 10000 iterations. *)
Lemma full_length_run_witness :
  exists res,
    simulate sin_taylor pow_square (constructor cycling) = Some res /\
    res_extinctionOccurred res = false /\
    res_equilibriumReached res = false /\
    duration (summary res) = time_at last_tick.
Proof.
  destruct (full_length_run sin_taylor pow_square cycling)
    as (res & Hsim & H).
  assert (Hcheck :
            returned_with
              (fun r => negb (res_extinctionOccurred r)
                        && negb (res_equilibriumReached r))
              (simulate sin_taylor pow_square (constructor cycling)) = true)
    by (vm_compute; reflexivity).
  rewrite Hsim in Hcheck. cbn [returned_with] in Hcheck.
  apply andb_prop in Hcheck as [Hx He].
  apply negb_true_iff in Hx. apply negb_true_iff in He.
  exact (ex_intro _ res
           (conj Hsim (conj Hx (conj He (proj1 (H Hx He)))))).
Defined.

(** The run of [steady] settles without extinction: its results make a
    stable scenario. *)
Lemma stable_run_length_witness :
  exists res pt,
    simulate sin_taylor pow_square (constructor steady) = Some res /\
    isStable_scenario res = true /\
    res_equilibriumPoint res = Some pt /\
    (duration (summary res) <? Math_min 100 (timeToReach pt + 10)) = false.
Proof.
  destruct (stable_run_length sin_taylor pow_square steady)
    as (res & Hsim & H).
  assert (Hcheck :
            returned_with isStable_scenario
              (simulate sin_taylor pow_square (constructor steady)) = true)
    by (vm_compute; reflexivity).
  rewrite Hsim in Hcheck. cbn [returned_with] in Hcheck.
  destruct (H Hcheck) as (pt & Hpt & Hlen).
  exact (ex_intro _ res
           (ex_intro _ pt (conj Hsim (conj Hcheck (conj Hpt Hlen))))).
Defined.

(** The run of the Predator Dominant preset starts its iteration 90; the
    ninth update of its stream carries the state the run has there. *)
Lemma stream_agrees_with_run_witness :
  let it := iteration_at extinct_run 90 in
  nth_error extinct_run 90 = Some (fst it, snd it) /\
  nth_error (stream sin_taylor 9 (constructor predatorDominant) 0) 8
  = Some (Update 8 (currentTime (fst it)) (preyPop (fst it))
                 (predatorPop (fst it))
                 (calculateResourceLevel sin_taylor (fst it)
                    (currentTime (fst it)))).
Proof.
  intros it.
  assert (Hnth : nth_error extinct_run 90 = Some (fst it, snd it))
    by (vm_compute; reflexivity).
  assert (Hfuel : (8 < 9)%nat) by lia.
  exact (conj Hnth
           (stream_agrees_with_run sin_taylor pow_square predatorDominant
              8 9 (fst it) (snd it) Hnth Hfuel)).
Defined.

(** The run of the Predator Dominant preset breaks in its iteration 91: the
    stream is nine updates, a tenth one for the extinct state, and the
    [complete] event. *)
Lemma stream_reports_extinction_witness :
  let it := iteration_at extinct_run 91 in
  nth_error extinct_run 91 = Some (fst it, snd it) /\
  is_break (snd it) = true /\
  exists updates res,
    stream sin_taylor 11 (constructor predatorDominant) 0
    = updates
      ++ [Update 9 (currentTime (outcome_state (snd it)) + dt)
                 (preyPop (outcome_state (snd it)))
                 (predatorPop (outcome_state (snd it)))
                 (calculateResourceLevel sin_taylor (outcome_state (snd it))
                    (currentTime (outcome_state (snd it)) + dt));
          Complete res] /\
    length updates = 9%nat /\
    res_extinctionOccurred res = true.
Proof.
  intros it.
  assert (Hnth : nth_error extinct_run 91 = Some (fst it, snd it))
    by (vm_compute; reflexivity).
  assert (Hbreak : is_break (snd it) = true) by (vm_compute; reflexivity).
  assert (Hfuel : (S (91 / 10) < 11)%nat) by (cbn; lia).
  pose proof (stream_reports_extinction sin_taylor pow_square
                predatorDominant 91 11 (fst it) (snd it) Hnth Hbreak Hfuel)
    as H.
  destruct H as (updates & res & Hstream & Hlen & _ & Hflag & _).
  exact (conj Hnth
           (conj Hbreak
              (ex_intro _ updates
                 (ex_intro _ res (conj Hstream (conj Hlen Hflag)))))).
Defined.
